(** * Boat Filter AI: a shallow embedding of the query pipeline

    The development follows [app.py] (the Streamlit entry point) and
    [filters3.py] (the command-line entry point).  Python text is modelled
    as [string] over the ASCII range; characters outside it are carried as
    opaque bytes that are neither white space, digits nor word characters,
    and offsets count bytes.  Python itself counts code points and knows
    white space, digits and letters outside ASCII, so a statement that
    depends on the class of a character or on the value of an offset
    assumes that the characters concerned are ASCII ([Str.is_ascii]).
    Part I holds the definitions, Part II the lemmas and theorems of the
    specification, Part III further properties of the code. *)

From Stdlib Require Import ZArith Lia Bool Ascii.
From Stdlib Require Import Floats.SpecFloat.
From Stdlib Require DecimalString.
From stdpp Require Import gmap strings list.

(* ===================================================================== *)
(** * Part I: definitions                                                  *)
(* ===================================================================== *)

(** ** Python text: the [str] methods the two programs use *)

Module Str.

(** [s[:n]] for [0 <= n]. *)
Fixpoint take (n : nat) (s : string) : string :=
  match n, s with
  | S n', String c s' => String c (take n' s')
  | _, _ => ""
  end.

(** [s[n:]] for [0 <= n]. *)
Fixpoint drop (n : nat) (s : string) : string :=
  match n, s with
  | S n', String _ s' => drop n' s'
  | _, _ => s
  end.

Definition is_digit (c : ascii) : bool :=
  let n := nat_of_ascii c in (48 <=? n)%nat && (n <=? 57)%nat.

Definition is_upper (c : ascii) : bool :=
  let n := nat_of_ascii c in (65 <=? n)%nat && (n <=? 90)%nat.

Definition is_lower (c : ascii) : bool :=
  let n := nat_of_ascii c in (97 <=? n)%nat && (n <=? 122)%nat.

Definition is_alpha (c : ascii) : bool := is_upper c || is_lower c.

(** The class [\w] of the [re] module, on ASCII. *)
Definition is_word (c : ascii) : bool :=
  is_alpha c || is_digit c || Ascii.eqb c "_".

(** A character of the ASCII range, and [s.isascii()]. *)
Definition is_ascii_char (c : ascii) : bool := (nat_of_ascii c <? 128)%nat.

Fixpoint is_ascii (s : string) : bool :=
  match s with
  | String c s' => is_ascii_char c && is_ascii s'
  | "" => true
  end.

(** The ASCII characters [str.strip()] removes: those for which
    [str.isspace] holds (tab, line feed, vertical tab, form feed, carriage
    return, the four separators 28 to 31 and the space).  Python removes
    white space outside ASCII as well (U+00A0 and others), which no byte
    of this class stands for. *)
Definition is_space (c : ascii) : bool :=
  let n := nat_of_ascii c in
  ((9 <=? n)%nat && (n <=? 13)%nat) || ((28 <=? n)%nat && (n <=? 32)%nat).

Fixpoint lstrip (p : ascii → bool) (s : string) : string :=
  match s with
  | String c s' => if p c then lstrip p s' else s
  | "" => ""
  end.

(** [rstrip] keeps a character when it is outside the class or when
    something is kept after it. *)
Fixpoint rstrip (p : ascii → bool) (s : string) : string :=
  match s with
  | String c s' =>
      match rstrip p s' with
      | "" => if p c then "" else String c ""
      | t => String c t
      end
  | "" => ""
  end.

(** [s.strip(chars)] with the set [chars] given as a class. *)
Definition strip_chars (p : ascii → bool) (s : string) : string :=
  rstrip p (lstrip p s).

(** [s.strip()]. *)
Definition strip (s : string) : string := strip_chars is_space s.

(** [s.startswith(p)]. *)
Definition startswith (p s : string) : bool := String.prefix p s.

(** [s.removeprefix(p)]. *)
Definition removeprefix (p s : string) : string :=
  if String.prefix p s then drop (String.length p) s else s.

(** [s.replace(a, b)] for single characters [a] and [b]. *)
Fixpoint replace_char (a b : ascii) (s : string) : string :=
  match s with
  | String c s' =>
      String (if Ascii.eqb c a then b else c) (replace_char a b s')
  | "" => ""
  end.

Definition to_upper (c : ascii) : ascii :=
  if is_lower c then ascii_of_nat (nat_of_ascii c - 32) else c.

Definition to_lower (c : ascii) : ascii :=
  if is_upper c then ascii_of_nat (nat_of_ascii c + 32) else c.

(** [s.title()]: a letter that follows a non-letter is upper-cased, a
    letter that follows a letter is lower-cased. *)
Fixpoint title_go (after_letter : bool) (s : string) : string :=
  match s with
  | String c s' =>
      String (if after_letter then to_lower c else to_upper c)
             (title_go (is_alpha c) s')
  | "" => ""
  end.

Definition title (s : string) : string := title_go false s.

(** [needle in haystack]. *)
Definition contains (needle haystack : string) : Prop :=
  ∃ pre post, haystack = pre +:+ needle +:+ post.

Definition nl : string := String "010" "".
Definition dquote : ascii := "034".

End Str.

(** ** The fragment of [re] used by the three patterns of the programs *)

Module Re.

(** Pattern syntax: the empty pattern, literals, classes, a greedy [+]
    on a class, a greedy [?], concatenation, the word boundary and the
    capturing group 1. *)
Inductive regex : Type :=
| Eps
| Chr (c : ascii)
| Cls (p : ascii → bool)
| Rep1 (p : ascii → bool)
| Opt (r : regex)
| Cat (r1 r2 : regex)
| Bnd
| Grp (r : regex).

(** A position in the subject: the character before it, its offset, the
    text from it on, and what group 1 holds so far. *)
Record cursor : Type := Cursor {
  before : option ascii;
  pos : nat;
  rest : string;
  group1 : option string
}.

Record rmatch : Type := Match {
  m_text : string;        (* m.group(0) *)
  m_start : nat;          (* m.start()  *)
  m_end : nat;            (* m.end()    *)
  m_group1 : option string
}.

Definition word_before (cur : cursor) : bool :=
  match before cur with Some c => Str.is_word c | None => false end.

Definition word_here (cur : cursor) : bool :=
  match rest cur with String c _ => Str.is_word c | "" => false end.

Section Backtracking.
Context {A : Type}.

(** Further characters of the class, longest run first; the
    continuation is retried on each shorter run. *)
Fixpoint rep_go (p : ascii → bool) (k : cursor → option A)
    (b : option ascii) (n : nat) (g : option string) (s : string)
    : option A :=
  match s with
  | String c s' =>
      if p c then
        match rep_go p k (Some c) (S n) g s' with
        | Some m => Some m
        | None => k (Cursor b n s g)
        end
      else k (Cursor b n s g)
  | "" => k (Cursor b n s g)
  end.

Definition step1 (p : ascii → bool) (cur : cursor)
    (k : ascii → string → option A) : option A :=
  match rest cur with
  | String c s' => if p c then k c s' else None
  | "" => None
  end.

Fixpoint run (r : regex) (cur : cursor) (k : cursor → option A)
    : option A :=
  match r with
  | Eps => k cur
  | Chr c =>
      step1 (Ascii.eqb c) cur (λ d s',
        k (Cursor (Some d) (S (pos cur)) s' (group1 cur)))
  | Cls p =>
      step1 p cur (λ d s',
        k (Cursor (Some d) (S (pos cur)) s' (group1 cur)))
  | Rep1 p =>
      step1 p cur (λ d s',
        rep_go p k (Some d) (S (pos cur)) (group1 cur) s')
  | Opt r' =>
      match run r' cur k with
      | Some m => Some m
      | None => k cur
      end
  | Cat r1 r2 => run r1 cur (λ cur', run r2 cur' k)
  | Bnd => if xorb (word_before cur) (word_here cur) then k cur else None
  | Grp r' =>
      run r' cur (λ cur',
        k (Cursor (before cur') (pos cur') (rest cur')
             (Some (Str.take (pos cur' - pos cur) (rest cur)))))
  end.
End Backtracking.

(** [pattern.match] anchored at a cursor. *)
Definition match_at (r : regex) (cur : cursor) : option rmatch :=
  run r cur (λ cur',
    Some (Match (Str.take (pos cur' - pos cur) (rest cur))
                (pos cur) (pos cur') (group1 cur'))).

(** [re.finditer]: leftmost matches, scanning resumes where a match
    ended.  [skip] counts the characters of the last match still to be
    passed.  None of the patterns below matches the empty text, so the
    empty-match rules of [re] are not needed. *)
Fixpoint finditer_go (r : regex) (b : option ascii) (n skip : nat)
    (s : string) : list rmatch :=
  match s with
  | String c s' =>
      match skip with
      | S skip' => finditer_go r (Some c) (S n) skip' s'
      | O =>
          match match_at r (Cursor b n s None) with
          | Some m =>
              m :: finditer_go r (Some c) (S n) (m_end m - m_start m - 1) s'
          | None => finditer_go r (Some c) (S n) 0 s'
          end
      end
  | "" => []
  end.

Definition finditer (r : regex) (s : string) : list rmatch :=
  finditer_go r None 0 0 s.

(** [re.findall] for a pattern with one group: the texts of group 1. *)
Definition findall (r : regex) (s : string) : list string :=
  (λ m, default "" (m_group1 m)) <$> finditer r s.

(** A literal word as a pattern. *)
Fixpoint lit (s : string) : regex :=
  match s with
  | String c s' => Cat (Chr c) (lit s')
  | "" => Eps
  end.

Definition is_quote (c : ascii) : bool :=
  Ascii.eqb c "'" || Ascii.eqb c Str.dquote.

Definition is_sep (c : ascii) : bool :=
  Ascii.eqb c "." || Ascii.eqb c ",".

Declare Scope re_scope.
Delimit Scope re_scope with re.
Infix "⋅" := Cat (at level 41, right associativity) : re_scope.

End Re.

(** ** Exceptions *)

(** A computation that returns or raises; [Raise] carries [str(e)]. *)
Inductive result (A : Type) : Type :=
| Ok (a : A)
| Raise (msg : string).
Arguments Ok {A} a.
Arguments Raise {A} msg.

Definition rbind {A B} (r : result A) (f : A → result B) : result B :=
  match r with
  | Ok a => f a
  | Raise msg => Raise msg
  end.

Definition rmap {A B} (f : A → B) (r : result A) : result B :=
  rbind r (λ a, Ok (f a)).

(** ** Python floats: IEEE 754 binary64 *)

Module Float.

Definition prec : Z := 53.
Definition emax : Z := 1024.

Definition neg_if (s : bool) (z : Z) : Z := if s then (- z)%Z else z.

(** [float(z)], correctly rounded. *)
Definition of_int (z : Z) : result spec_float :=
  match binary_normalize prec emax z 0 false with
  | S754_infinity _ => Raise "int too large to convert to float"
  | f => Ok f
  end.

(** [a / b] on two ints: the exact quotient, correctly rounded. *)
Definition int_truediv (a b : Z) : result spec_float :=
  match a, b with
  | _, Z0 => Raise "division by zero"
  | Z0, _ => Ok (S754_zero (b <? 0)%Z)
  | _, _ =>
      match SFdiv prec emax
              (S754_finite (a <? 0)%Z (Z.to_pos (Z.abs a)) 0)
              (S754_finite (b <? 0)%Z (Z.to_pos (Z.abs b)) 0) with
      | S754_infinity _ =>
          Raise "integer division result too large for a float"
      | f => Ok f
      end
  end.

(** [x / b] for a float [x] and an int [b]: [b] is converted first. *)
Definition truediv_int (x : spec_float) (b : Z) : result spec_float :=
  rbind (of_int b) (λ fb,
    match fb with
    | S754_zero _ => Raise "float division by zero"
    | _ => Ok (SFdiv prec emax x fb)
    end).

(** [x >= c] for a float [x] and an int [c]; the comparison is exact. *)
Definition ge_int (x : spec_float) (c : Z) : bool :=
  match x with
  | S754_nan => false
  | S754_infinity s => negb s
  | S754_zero _ => (c <=? 0)%Z
  | S754_finite s m e =>
      match e with
      | Zneg p => (c * 2 ^ Zpos p <=? neg_if s (Zpos m))%Z
      | _ => (c <=? neg_if s (Zpos m * 2 ^ e))%Z
      end
  end.

(** [x.is_integer()]. *)
Definition is_integer (x : spec_float) : bool :=
  match x with
  | S754_zero _ => true
  | S754_finite _ m e =>
      match e with
      | Zneg p => (Zpos m mod 2 ^ Zpos p =? 0)%Z
      | _ => true
      end
  | _ => false
  end.

(** [int(x)] for a finite [x]: truncation towards zero. *)
Definition to_int (x : spec_float) : Z :=
  match x with
  | S754_finite s m e =>
      match e with
      | Zneg p => neg_if s (Zpos m / 2 ^ Zpos p)
      | _ => neg_if s (Zpos m * 2 ^ e)
      end
  | _ => 0%Z
  end.

(** The decimal digits of a natural number. *)
Definition digits (n : Z) : string :=
  DecimalString.NilZero.string_of_uint (N.to_uint (Z.to_N n)).

Fixpoint zeros (n : nat) : string :=
  match n with
  | O => ""
  | S n' => String "0" (zeros n')
  end.

(** The thousands separator of the [,] format option, working from the
    least significant digit. *)
Fixpoint group_rev (i : nat) (rev_digits : list ascii) : list ascii :=
  match rev_digits with
  | [] => []
  | c :: tl =>
      match tl with
      | [] => [c]
      | _ =>
          if (i mod 3 =? 2)%nat then c :: ","%char :: group_rev (S i) tl
          else c :: group_rev (S i) tl
      end
  end.

Definition group3 (s : string) : string :=
  String.string_of_list_ascii
    (rev (group_rev 0 (rev (String.list_ascii_of_string s)))).

(** [|x| * 10^d] rounded to the nearest integer, ties to even; the
    value of a finite float is the dyadic [m * 2^e], so this is exact. *)
Definition scaled (d : nat) (m : positive) (e : Z) : Z :=
  let num := (Zpos m * 10 ^ Z.of_nat d)%Z in
  match e with
  | Zneg p =>
      let den := (2 ^ Zpos p)%Z in
      let q := (num / den)%Z in
      let r := (num mod den)%Z in
      match (2 * r ?= den)%Z with
      | Lt => q
      | Gt => (q + 1)%Z
      | Eq => if Z.even q then q else (q + 1)%Z
      end
  | _ => (num * 2 ^ e)%Z
  end.

(** The text of a non-negative fixed-point number [n / 10^d]. *)
Definition fixed_text (d : nat) (grouped : bool) (n : Z) : string :=
  let p := (10 ^ Z.of_nat d)%Z in
  let int_part := digits (n / p) in
  let int_part := if grouped then group3 int_part else int_part in
  match d with
  | O => int_part
  | _ =>
      let frac := digits (n mod p) in
      int_part +:+ "." +:+ zeros (d - String.length frac) +:+ frac
  end.

(** [format(x, ".{d}f")], and [format(x, ",.{d}f")] when [grouped]. *)
Definition format_f (d : nat) (grouped : bool) (x : spec_float) : string :=
  match x with
  | S754_nan => "nan"
  | S754_infinity s => if s then "-inf" else "inf"
  | S754_zero s => (if s then "-" else "") +:+ fixed_text d grouped 0
  | S754_finite s m e =>
      (if s then "-" else "") +:+ fixed_text d grouped (scaled d m e)
  end.

End Float.

(** ** Cell values, tables and the objects an evaluation can return *)

Inductive pyvalue : Type :=
| VNone
| VBool (b : bool)
| VInt (z : Z)
| VFloat (f : spec_float)
| VStr (s : string)
| VOther (text : string).   (* any other object, with its [str()] *)

(** A polars table, column-oriented as in the library. *)
Record Series : Type := mkSeries {
  s_name : string;
  s_values : list pyvalue
}.

Abbreviation DataFrame := (list Series).

Module Polars.

(** [pl.DataFrame()] *)
Definition empty : DataFrame := [].

(** [df.columns] *)
Definition columns (df : DataFrame) : list string := s_name <$> df.

(** [df.height], also [len(df)] *)
Definition height (df : DataFrame) : nat :=
  match df with
  | [] => 0
  | s :: _ => length (s_values s)
  end.

(** [df.is_empty()]: no rows. *)
Definition is_empty (df : DataFrame) : bool := (height df =? 0)%nat.

(** [df.head(n)] for [0 <= n]. *)
Definition head (n : nat) (df : DataFrame) : DataFrame :=
  (λ s, mkSeries (s_name s) (take n (s_values s))) <$> df.

(** One row as a Python dict, in column order. *)
Definition row (i : nat) (df : DataFrame) : list (string * pyvalue) :=
  (λ s, (s_name s, default VNone (s_values s !! i))) <$> df.

(** [df.rows(named=True)] *)
Definition rows (df : DataFrame) : list (list (string * pyvalue)) :=
  (λ i, row i df) <$> seq 0 (height df).

(** [pl.DataFrame({"result": [v]})] *)
Definition of_scalar (v : pyvalue) : DataFrame := [mkSeries "result" [v]].

End Polars.

(** What [eval] can hand back, and what a namespace can bind. *)
Inductive pyobj : Type :=
| ObjFrame (df : DataFrame)
| ObjLazy (plan : result DataFrame)   (* a LazyFrame and what collect() does *)
| ObjModule (name : string)
| ObjValue (v : pyvalue).

(** ** The collaborators outside the repository *)

(** The generative service: what [generate_content(prompt).text] gives for
    a model name and a prompt when [n] requests were made before, or the
    exception the client raises.  The index lets the same prompt receive
    different replies. *)
Class Generator : Type := {
  generate_content : nat → string → string → result string
}.

(** The Python interpreter, the table constructor of polars and the
    table printer of pandas.
    [py_compile expr] is [compile(expr, "<string>", "eval")];
    [py_eval expr globals locals] is [eval(expr, globals, locals)].
    [Raise] stands for an exception of class [Exception], the ones an
    [except Exception] clause catches.  [None] stands for an evaluation
    that gives its caller neither a value nor such an exception: it does
    not return, or it is left through an exception outside [Exception]
    ([SystemExit], [KeyboardInterrupt]), which no handler of the two
    programs catches.
    [py_cell res] is the cell that [pl.DataFrame({"result": [res]})]
    stores for an object that is not a table, or the exception the
    constructor raises.
    [float_repr] is [repr] on floats. *)
Class Interpreter : Type := {
  py_compile : string → result unit;
  py_eval : string → gmap string pyobj → gmap string pyobj
            → option (result pyobj);
  py_cell : pyobj → result pyvalue;
  float_repr : spec_float → string;
  to_pandas_string : DataFrame → string
}.

(** The iteration order of a [set] built by inserting the given texts:
    unspecified, but without repetition and with the same members. *)
Class SetOrder : Type := {
  list_of_set : list string → list string;
  list_of_set_NoDup : ∀ l, NoDup (list_of_set l);
  list_of_set_elem : ∀ l x, x ∈ list_of_set l ↔ x ∈ l
}.

(** ** Name resolution inside [eval(expr, globals, locals)] *)

Module Eval.

(** [eval] adds the key [__builtins__] to a globals mapping lacking it. *)
Definition prepare_globals (builtins_module : pyobj)
    (globals : gmap string pyobj) : gmap string pyobj :=
  match globals !! "__builtins__" with
  | Some _ => globals
  | None => <["__builtins__" := builtins_module]> globals
  end.

(** A name is looked up in the locals, then the globals, then the
    builtins. *)
Definition resolve (builtins : gmap string pyobj)
    (globals locals : gmap string pyobj) (name : string) : option pyobj :=
  match locals !! name with
  | Some o => Some o
  | None =>
      match prepare_globals (ObjModule "builtins") globals !! name with
      | Some o => Some o
      | None => builtins !! name
      end
  end.

End Eval.

(** [str(value)] *)
Definition py_str `{Interpreter} (v : pyvalue) : string :=
  match v with
  | VNone => "None"
  | VBool b => if b then "True" else "False"
  | VInt z => DecimalString.NilZero.string_of_int (Z.to_int z)
  | VFloat f => float_repr f
  | VStr s => s
  | VOther text => text
  end.

(** [isinstance(value, (int, float))]; [bool] is a subclass of [int]. *)
Definition is_number (v : pyvalue) : bool :=
  match v with
  | VBool _ | VInt _ | VFloat _ => true
  | _ => false
  end.

(** Arithmetic on a number cell. A [bool] counts as 0 or 1. *)
Module Num.

Definition ge (v : pyvalue) (c : Z) : bool :=
  match v with
  | VBool b => (c <=? Z.b2z b)%Z
  | VInt z => (c <=? z)%Z
  | VFloat f => Float.ge_int f c
  | _ => false
  end.

Definition truediv (v : pyvalue) (c : Z) : result spec_float :=
  match v with
  | VBool b => Float.int_truediv (Z.b2z b) c
  | VInt z => Float.int_truediv z c
  | VFloat f => Float.truediv_int f c
  | _ => Raise "unsupported operand"
  end.

(** [format(v, spec)] with a fixed-point [spec]: an int is converted to
    float first. *)
Definition format_f (d : nat) (grouped : bool) (v : pyvalue)
    : result string :=
  match v with
  | VBool b => rmap (Float.format_f d grouped) (Float.of_int (Z.b2z b))
  | VInt z => rmap (Float.format_f d grouped) (Float.of_int z)
  | VFloat f => Ok (Float.format_f d grouped f)
  | _ => Raise "unsupported format string"
  end.

End Num.

(** ** Effects: the requests sent to the service and what the page shows *)

Inductive ui_event : Type :=
| UiError (msg : string)                      (* st.error *)
| UiWarning (msg : string)                    (* st.warning *)
| UiSuccess (msg : string)                    (* st.success *)
| UiCode (label code : string)                (* st.expander + st.code *)
| UiCard (title : string) (fields : list (nat * string)).

Record World : Type := mkWorld {
  calls : list (string * string);   (* model and prompt of each request *)
  shown : list ui_event
}.

Definition no_effects : World := mkWorld [] [].

(** A stateful computation; [None] when it does not return. *)
Definition M (A : Type) : Type := World → World * option A.

Definition ret {A} (a : A) : M A := λ w, (w, Some a).

Definition bind {A B} (m : M A) (f : A → M B) : M B :=
  λ w, match m w with
       | (w', Some a) => f a w'
       | (w', None) => (w', None)
       end.

Definition hang {A} : M A := λ w, (w, None).

Definition show (e : ui_event) : M unit :=
  λ w, (mkWorld (calls w) (shown w ++ [e]), Some tt).

(** One request to the service; its index is the number of requests made
    before it. *)
Definition request `{Generator} (model prompt : string) : M (result string) :=
  λ w, (mkWorld (calls w ++ [(model, prompt)]) (shown w),
        Some (generate_content (length (calls w)) model prompt)).

Notation "'let*' x ':=' m 'in' k" := (bind m (λ x, k))
  (at level 10, x name, m at level 100, k at level 200).

(** ** app.py *)

Module App.
Import Re.

Definition NAME_COLS : list string :=
  ["boat_name"; "Nome della barca"; "boatName"; "name"; "title"].
Definition PRICE_COLS : list string := ["price"; "Price"; "prezzo"; "cost"].
Definition YEAR_COLS : list string :=
  ["year"; "Year"; "anno"; "build_year"; "construction_year"].
Definition BRAND_COLS : list string :=
  ["brand"; "Brand"; "marca"; "manufacturer"; "make"].
Definition LOCATION_COLS : list string :=
  ["location"; "Location"; "luogo"; "region"; "area"; "port"].

(** [pl\.col\( ?Q([^Q]+)Q ?\)], where [Q] stands for the class of the
    single and the double quote. *)
Definition col_pattern : regex :=
  (lit "pl.col(" ⋅ Opt (Chr " ") ⋅ Cls is_quote
     ⋅ Grp (Rep1 (λ c, negb (is_quote c)))
     ⋅ Cls is_quote ⋅ Opt (Chr " ") ⋅ Chr ")")%re.

(** [df\[ ?Q([^Q]+)Q ?\]], with the same class [Q]. *)
Definition index_pattern : regex :=
  (lit "df[" ⋅ Opt (Chr " ") ⋅ Cls is_quote
     ⋅ Grp (Rep1 (λ c, negb (is_quote c)))
     ⋅ Cls is_quote ⋅ Opt (Chr " ") ⋅ Chr "]")%re.

(** The two [cols.update(re.findall(...))] fill the set, [list(cols)]
    iterates it. *)
Definition extract_cols `{SetOrder} (expr : string) : list string :=
  list_of_set (findall col_pattern expr ++ findall index_pattern expr).

(** [next((c for c in aliases if c in columns), None)] *)
Definition first_present (aliases columns : list string) : option string :=
  List.find (λ c, bool_decide (c ∈ columns)) aliases.

(** Truth value of [x] for [x : str | None]. *)
Definition truthy (x : option string) : bool :=
  match x with
  | Some s => negb (String.eqb s "")
  | None => false
  end.

Definition get_display_columns (df : DataFrame) (query_cols : list string)
    : list string :=
  let display_cols := [] in
  let name_col := first_present NAME_COLS (Polars.columns df) in
  let price_col := first_present PRICE_COLS (Polars.columns df) in
  let year_col := first_present YEAR_COLS (Polars.columns df) in
  let display_cols :=
    match name_col with
    | Some c => if truthy name_col then display_cols ++ [c] else display_cols
    | None => display_cols
    end in
  let display_cols :=
    match price_col with
    | Some c =>
        if truthy price_col && negb (bool_decide (c ∈ display_cols))
        then display_cols ++ [c] else display_cols
    | None => display_cols
    end in
  let display_cols :=
    match year_col with
    | Some c =>
        if truthy year_col && negb (bool_decide (c ∈ display_cols))
        then display_cols ++ [c] else display_cols
    | None => display_cols
    end in
  fold_left
    (λ display_cols col,
       if bool_decide (col ∈ Polars.columns df)
          && negb (bool_decide (col ∈ display_cols))
       then display_cols ++ [col] else display_cols)
    query_cols display_cols.

(** [if isinstance(value, float) and value.is_integer():
      value = int(value)] *)
Definition integral_to_int (value : pyvalue) : pyvalue :=
  match value with
  | VFloat f => if Float.is_integer f then VInt (Float.to_int f) else value
  | _ => value
  end.

Definition format_value `{Interpreter} (value : pyvalue) (col_name : string)
    : result string :=
  match value with
  | VNone => Ok "N/A"
  | VBool _ | VInt _ | VFloat _ =>
      let value := integral_to_int value in
      if bool_decide (col_name ∈ PRICE_COLS) then
        if Num.ge value 1000000 then
          rmap (λ q, "€" +:+ Float.format_f 1 false q +:+ "M")
               (Num.truediv value 1000000)
        else if Num.ge value 1000 then
          rmap (λ q, "€" +:+ Float.format_f 0 false q +:+ "K")
               (Num.truediv value 1000)
        else
          rmap (λ t, "€" +:+ t) (Num.format_f 0 true value)
      else if bool_decide (col_name ∈ YEAR_COLS) then
        Ok (py_str value)
      else
        Ok (py_str value)
  | _ => Ok (py_str value)
  end.

(** [\b\d+(?:[.,]\d+)?\b], with [\d], [\w] and [\b] as they are on
    ASCII text; offsets count bytes, which on ASCII text are the
    characters Python counts. *)
Definition number_pattern : regex :=
  (Bnd ⋅ Rep1 Str.is_digit
     ⋅ Opt (Cls is_sep ⋅ Rep1 Str.is_digit) ⋅ Bnd)%re.

Definition extract_number_spans (text : string)
    : list (string * nat * nat) :=
  (λ m, (m_text m, m_start m, m_end m)) <$> finditer number_pattern text.

(** The loop of [main] that writes the edited values back, last span
    first: [q = q[:start] + new_val + q[end:]]. *)
Definition rewrite_numbers (text : string)
    (numbers : list (string * nat * nat)) (new_vals : list string)
    : string :=
  fold_left
    (λ updated_query '((_, start, end_), new_val),
       Str.take start updated_query +:+ new_val
         +:+ Str.drop end_ updated_query)
    (zip (reverse numbers) (reverse new_vals)) text.

Definition INSTRUCTION_STR : string :=
  "1. Convert the query to executable Python code using **Polars** (not pandas). DO NOT use the option case sensitive"
  +:+ Str.nl +:+ "2. The final line must be a Python expression that can be passed to eval()."
  +:+ Str.nl +:+ "3. DO NOT use the option case sensitive"
  +:+ Str.nl +:+ "3. It **must return a pl.DataFrame** (use head() if necessary)."
  +:+ Str.nl +:+ "4. PRINT ONLY THE EXPRESSION, no extra text or formatting."
  +:+ Str.nl +:+ "5. Do not wrap the expression in quotes or markdown."
  +:+ Str.nl +:+ "6. Use `df.filter(<boolean>)`, `pl.lit`, or the lazy API; **avoid** `df[bool_mask]` row‑filter syntax."
  +:+ Str.nl +:+ "7. **IMPORTANT**: If the query mentions a specific brand name (like 'Azimut', 'Ferretti', 'Princess', etc.), "
  +:+ "you MUST filter by that brand. Look for brand information in columns like 'brand', 'manufacturer', 'make', "
  +:+ "or check if the brand name appears in the boat name. Use case-insensitive matching with `str.contains()`."
  +:+ Str.nl +:+ "8. For brand filtering, use: `df.filter(pl.col('brand').str.contains('brand_name'))` "
  +:+ "or similar pattern matching."
  +:+ Str.nl +:+ "9. For location filtering, use: `df.filter(pl.col('location').str.contains('location_name'))` do not use the option case sensitive "
  +:+ "or similar pattern matching."
  +:+ Str.nl +:+ "10. Combine filters using `&` (AND) operator."
  +:+ Str.nl +:+ "11. For case-insensitive substring search in Polars, use a regex pattern with (?i) at the start, e.g. pl.col('brand').str.contains('(?i)azimut'). Do NOT use a case_insensitive argument in .str.contains."
  +:+ Str.nl.

(** [PROMPT_TEMPLATE.format(df_str=..., instructions=..., query=...)] *)
Definition PROMPT_TEMPLATE (df_str instructions query : string) : string :=
  "You are working with a Polars DataFrame in Python."
  +:+ Str.nl +:+ "The DataFrame variable is named `df`."
  +:+ Str.nl +:+ "Here is the output of `print(df.head())`:"
  +:+ Str.nl +:+ df_str
  +:+ Str.nl +:+ Str.nl +:+ "Follow these instructions strictly:"
  +:+ Str.nl +:+ instructions
  +:+ Str.nl +:+ "Query: " +:+ query
  +:+ Str.nl +:+ Str.nl +:+ "Expression:".

(** The text appended to the prompt when [error] is set. *)
Definition correction (error : string) : string :=
  Str.nl +:+ "The previous expression produced the following error:"
  +:+ Str.nl +:+ error
  +:+ Str.nl +:+ "Please provide a corrected Polars expression.".

Definition is_fence_char (c : ascii) : bool :=
  Ascii.eqb c "`" || Ascii.eqb c "010".

(** What the function does with [resp.text]. *)
Definition clean_reply (text : string) : string :=
  let expr := Str.strip text in
  if Str.startswith "```" expr then
    Str.strip (Str.removeprefix "python" (Str.strip_chars is_fence_char expr))
  else expr.

(** The prompt of one request: the template, and the correction text
    when [error] is set and not empty. *)
Definition build_prompt (query df_sample : string) (error : option string)
    : string :=
  let prompt := PROMPT_TEMPLATE df_sample INSTRUCTION_STR query in
  match error with
  | Some e => if truthy error then prompt +:+ correction e else prompt
  | None => prompt
  end.

Definition get_polars_expression `{Generator}
    (query df_sample model : string) (error : option string) : M string :=
  let prompt := build_prompt query df_sample error in
  let* resp := request model prompt in
  match resp with
  | Ok text => ret (clean_reply text)
  | Raise e =>
      let* _ := show (UiError ("Error generating expression: " +:+ e)) in
      ret ""
  end.

(** [{"df": df, "pl": pl}] *)
Definition local_ns (df : DataFrame) : gmap string pyobj :=
  <["df" := ObjFrame df]> (<["pl" := ObjModule "polars"]> ∅).

(** The first half of the [try] in [query_boats]: compile, evaluate and
    bring the value to a table.  [None] when the evaluation does not
    return, [Raise] when the [except] clause is reached; the constructor
    call that wraps another value is inside the [try] as well. *)
Definition run_expression `{Interpreter} (df : DataFrame) (expr : string)
    : option (result DataFrame) :=
  match py_compile expr with
  | Raise e => Some (Raise e)
  | Ok _ =>
      match py_eval expr ∅ (local_ns df) with
      | None => None
      | Some (Raise e) => Some (Raise e)
      | Some (Ok res) =>
          Some match res with
               | ObjLazy plan => plan                   (* res.collect() *)
               | ObjFrame table => Ok table
               | _ => rmap Polars.of_scalar (py_cell res)
               end
      end
  end.

(** The whole [try] body: the columns are read off the full table, then
    the table is cut to 20 rows. *)
Definition try_expression `{Interpreter} `{SetOrder}
    (df : DataFrame) (expr : string)
    : option (result (string * DataFrame * list string)) :=
  rmap (λ res,
          let cols_used := extract_cols expr in
          let show_cols := get_display_columns res cols_used in
          let res := Polars.head 20 res in
          (expr, res, show_cols))
    <$> run_expression df expr.

(** The text of [error : str | None] inside an f-string. *)
Definition error_text (error : option string) : string :=
  default "None" error.

(** The [for _ in range(max_retries + 1)] loop with [n] rounds to go,
    and the code after it. *)
Fixpoint attempts `{Generator} `{Interpreter} `{SetOrder} (n : nat)
    (df : DataFrame) (query df_head_str model : string)
    (error : option string) (expr : string)
    : M (string * DataFrame * list string) :=
  match n with
  | S n' =>
      let* expr := get_polars_expression query df_head_str model error in
      if String.eqb expr "" then ret ("", Polars.empty, [])
      else
        match try_expression df expr with
        | None => hang
        | Some (Ok answer) => ret answer
        | Some (Raise e) =>
            attempts n' df query df_head_str model (Some e) expr
        end
  | O =>
      let* _ := show (UiCode "🔍 Generated Query" expr) in
      let* _ := show (UiError ("Error executing query: "
                               +:+ error_text error)) in
      ret (expr, Polars.empty, [])
  end.

Definition query_boats `{Generator} `{Interpreter} `{SetOrder}
    (df : DataFrame) (query model : string) (max_retries : Z)
    : M (string * DataFrame * list string) :=
  if Polars.is_empty df then ret ("", Polars.empty, [])
  else
    let df_head_str := to_pandas_string (Polars.head 5 df) in
    attempts (Z.to_nat (max_retries + 1)) df query df_head_str model
             None "".

(** [row.get(key)] and [key in row] on a row dict. *)
Definition row_get (row : list (string * pyvalue)) (key : string)
    : option pyvalue :=
  snd <$> List.find (λ kv, String.eqb (fst kv) key) row.

(** The card of one row: its title and, for each shown column, the slot
    (0, 1 or 2) and the markdown written into it. *)
Definition display_boat_card `{Interpreter}
    (row : list (string * pyvalue)) (display_cols : list string)
    : result ui_event :=
  let name_col := first_present NAME_COLS display_cols in
  let boat_name :=
    match name_col with
    | Some c =>
        if truthy name_col then default (VStr "Boat") (row_get row c)
        else VStr "Boat"
    | None => VStr "Boat"
    end in
  rmap (λ st, UiCard (py_str boat_name) (snd st))
    (fold_left
       (λ acc col,
          rbind acc (λ '(col_idx, fields),
            if bool_decide (Some col = name_col) then Ok (col_idx, fields)
            else
              match row_get row col with
              | Some VNone | None => Ok (col_idx, fields)
              | Some v =>
                  rbind (format_value v col) (λ value,
                    let col_display :=
                      Str.title (Str.replace_char "_" " " col) in
                    let value_display :=
                      if bool_decide (col ∈ PRICE_COLS) then
                        "<span class='price-highlight'>" +:+ value
                          +:+ "</span>"
                      else if bool_decide (col ∈ YEAR_COLS) then
                        "<span class='year-highlight'>" +:+ value
                          +:+ "</span>"
                      else value in
                    Ok (S col_idx,
                        fields ++ [(col_idx mod 3,
                                    "**" +:+ col_display +:+ ":** "
                                      +:+ value_display)]))
              end))
       display_cols (Ok (0, []))).

(** [for x in xs: f(x)] where [f] may raise. *)
Fixpoint for_each {A B} (f : A → result B) (xs : list A)
    : result (list B) :=
  match xs with
  | [] => Ok []
  | x :: xs' => rbind (f x) (λ y, rmap (cons y) (for_each f xs'))
  end.

Definition display_results `{Interpreter} (expr : string)
    (results_df : DataFrame) (display_cols : list string)
    : result (list ui_event) :=
  if Polars.is_empty results_df then
    Ok [UiWarning "No boats found matching your criteria."]
  else
    rmap (λ cards,
            UiCode "🔍 Generated Query" expr
            :: UiSuccess ("Found "
                          +:+ py_str (VInt (Z.of_nat (Polars.height results_df)))
                          +:+ " boats matching your criteria")
            :: cards)
         (for_each (λ row, display_boat_card row display_cols)
                   (Polars.rows results_df)).

End App.

(** ** filters3.py *)

Module Filters3.
Import Re.

Definition INSTRUCTION_STR : string :=
  "1. Convert the query to executable Python code using **Polars** (not pandas)."
  +:+ Str.nl +:+ "2. The final line must be a Python expression that can be passed to eval()."
  +:+ Str.nl +:+ "3. It **must return a pl.DataFrame** (use head() if necessary)."
  +:+ Str.nl +:+ "4. PRINT ONLY THE EXPRESSION, no extra text or formatting."
  +:+ Str.nl +:+ "5. Do not wrap the expression in quotes or markdown."
  +:+ Str.nl +:+ "6. Use `df.filter(<boolean>)`, `pl.lit`, or the lazy API; **avoid** `df[bool_mask]` row‑filter syntax."
  +:+ Str.nl +:+ "7. **IMPORTANT**: If the query mentions a specific brand name (like 'Azimut', 'Ferretti', 'Princess', etc.), "
  +:+ "you MUST filter by that brand. Look for brand information in columns like 'brand', 'manufacturer', 'make', "
  +:+ "or check if the brand name appears in the boat name. Use case-insensitive matching with `str.contains()`."
  +:+ Str.nl +:+ "8. For brand filtering, use: `df.filter(pl.col('brand').str.contains('brand_name'))` "
  +:+ "or similar pattern matching."
  +:+ Str.nl +:+ "9. For location filtering, use: `df.filter(pl.col('location').str.contains('location_name'))` "
  +:+ "or similar pattern matching."
  +:+ Str.nl +:+ "10. Combine filters using `&` (AND) operator.".

Definition PROMPT_TEMPLATE (df_str instructions query : string) : string :=
  "You are working with a Polars DataFrame in Python."
  +:+ Str.nl +:+ "The DataFrame variable is named `df`."
  +:+ Str.nl +:+ "Here is the output of `print(df.head())`:"
  +:+ Str.nl +:+ df_str
  +:+ Str.nl +:+ Str.nl +:+ "Follow these instructions strictly:"
  +:+ Str.nl +:+ instructions
  +:+ Str.nl +:+ "Query: " +:+ query
  +:+ Str.nl +:+ Str.nl +:+ "Expression:".

Definition is_fence_char (c : ascii) : bool :=
  Ascii.eqb c "`" || Ascii.eqb c "010".

(** No [try] here: an exception of the client reaches the caller.  [n]
    counts the requests made before. *)
Definition get_polars_expression `{Generator} (n : nat)
    (query df_sample model : string) : result string :=
  let prompt := PROMPT_TEMPLATE df_sample INSTRUCTION_STR query in
  rmap (λ text,
          let expr := Str.strip text in
          if Str.startswith "```" expr then
            Str.strip (Str.removeprefix "python"
                         (Str.strip_chars is_fence_char expr))
          else expr)
       (generate_content n model prompt).

Definition NAME_COLS : list string :=
  ["boat_name"; "Nome della barca"; "boatName"; "name"; "title"].
Definition PRICE_COLS : list string := ["price"; "Price"; "prezzo"; "cost"].
Definition YEAR_COLS : list string :=
  ["year"; "Year"; "anno"; "build_year"; "construction_year"].
Definition BRAND_COLS : list string :=
  ["brand"; "Brand"; "marca"; "manufacturer"; "make"].
Definition LOCATION_COLS : list string :=
  ["location"; "Location"; "luogo"; "region"; "area"; "port"].
Definition REQUIRED_COLS : list string := ["name"; "price"; "year"].

(** [pl\.col\( ?Q([^Q]+)Q ?\)], where [Q] stands for the class of the
    single and the double quote. *)
Definition col_pattern : regex :=
  (lit "pl.col(" ⋅ Opt (Chr " ") ⋅ Cls is_quote
     ⋅ Grp (Rep1 (λ c, negb (is_quote c)))
     ⋅ Cls is_quote ⋅ Opt (Chr " ") ⋅ Chr ")")%re.

(** [df\[ ?Q([^Q]+)Q ?\]], with the same class [Q]. *)
Definition index_pattern : regex :=
  (lit "df[" ⋅ Opt (Chr " ") ⋅ Cls is_quote
     ⋅ Grp (Rep1 (λ c, negb (is_quote c)))
     ⋅ Cls is_quote ⋅ Opt (Chr " ") ⋅ Chr "]")%re.

Definition extract_cols `{SetOrder} (expr : string) : list string :=
  list_of_set (findall col_pattern expr ++ findall index_pattern expr).

Definition first_present (aliases columns : list string) : option string :=
  List.find (λ c, bool_decide (c ∈ columns)) aliases.

Definition truthy (x : option string) : bool :=
  match x with
  | Some s => negb (String.eqb s "")
  | None => false
  end.

Definition get_display_columns (df : DataFrame) (query_cols : list string)
    : list string :=
  let display_cols := [] in
  let name_col := first_present NAME_COLS (Polars.columns df) in
  let price_col := first_present PRICE_COLS (Polars.columns df) in
  let year_col := first_present YEAR_COLS (Polars.columns df) in
  let display_cols :=
    match name_col with
    | Some c => if truthy name_col then display_cols ++ [c] else display_cols
    | None => display_cols
    end in
  let display_cols :=
    match price_col with
    | Some c =>
        if truthy price_col && negb (bool_decide (c ∈ display_cols))
        then display_cols ++ [c] else display_cols
    | None => display_cols
    end in
  let display_cols :=
    match year_col with
    | Some c =>
        if truthy year_col && negb (bool_decide (c ∈ display_cols))
        then display_cols ++ [c] else display_cols
    | None => display_cols
    end in
  fold_left
    (λ display_cols col,
       if bool_decide (col ∈ Polars.columns df)
          && negb (bool_decide (col ∈ display_cols))
       then display_cols ++ [col] else display_cols)
    query_cols display_cols.

Definition format_value `{Interpreter} (value : pyvalue) : string :=
  match value with
  | VNone => "N/A"
  | VFloat f =>
      if Float.is_integer f then py_str (VInt (Float.to_int f))
      else py_str value
  | _ => py_str value
  end.

(** [int(value)] for a number. *)
Definition to_int (value : pyvalue) : result Z :=
  match value with
  | VBool b => Ok (Z.b2z b)
  | VInt z => Ok z
  | VFloat S754_nan => Raise "cannot convert float NaN to integer"
  | VFloat (S754_infinity _) =>
      Raise "cannot convert float infinity to integer"
  | VFloat f => Ok (Float.to_int f)
  | _ => Raise "int() argument must be a number"
  end.

(** What the console receives. *)
Inductive printed : Type :=
| Notice (text : string)
| RowHeader (i : nat)                  (* the line of boat number [i] *)
| Field (col_display formatted_value : string).

(** The text [bullets] prints for one cell. *)
Definition cell_text `{Interpreter} (value : pyvalue) (col : string)
    : result string :=
  let formatted_value := format_value value in
  if bool_decide (col ∈ PRICE_COLS) && is_number value then
    if Num.ge value 1000000 then
      rmap (λ q, "€" +:+ Float.format_f 1 false q +:+ "M")
           (Num.truediv value 1000000)
    else if Num.ge value 1000 then
      rmap (λ q, "€" +:+ Float.format_f 0 false q +:+ "K")
           (Num.truediv value 1000)
    else
      rmap (λ t, "€" +:+ t) (Num.format_f 0 true value)
  else if bool_decide (col ∈ YEAR_COLS) && is_number value then
    rmap (λ z, py_str (VInt z)) (to_int value)
  else Ok formatted_value.

Definition row_get (row : list (string * pyvalue)) (key : string)
    : option pyvalue :=
  snd <$> List.find (λ kv, String.eqb (fst kv) key) row.

Fixpoint for_each {A B} (f : A → result (list B)) (xs : list A)
    : result (list B) :=
  match xs with
  | [] => Ok []
  | x :: xs' => rbind (f x) (λ ys, rmap (app ys) (for_each f xs'))
  end.

Definition bullets `{Interpreter} (df : DataFrame) (cols : list string)
    : result (list printed) :=
  if Polars.is_empty df then
    Ok [Notice "[yellow]Nessun risultato trovato.[/]"]
  else
    let display_cols := get_display_columns df cols in
    match display_cols with
    | [] =>
        Ok [Notice "[yellow]Nessuna colonna valida trovata per la visualizzazione.[/]"]
    | _ =>
        rmap (cons (Notice (Str.nl +:+ "[bold green]Risultati trovati: "
                            +:+ py_str (VInt (Z.of_nat (Polars.height df)))
                            +:+ "[/]")))
          (for_each
             (λ '(i, row),
                rmap (cons (RowHeader i))
                  (for_each
                     (λ col,
                        match row_get row col with
                        | Some value =>
                            rmap (λ formatted_value,
                                    [Field (Str.title
                                              (Str.replace_char "_" " " col))
                                           formatted_value])
                                 (cell_text value col)
                        | None => Ok []
                        end)
                     display_cols))
             (zip (seq 1 (Polars.height df)) (Polars.rows df)))
    end.

Definition local_ns (df : DataFrame) : gmap string pyobj :=
  <["df" := ObjFrame df]> (<["pl" := ObjModule "polars"]> ∅).

(** One round of the loop of [main] for a non-empty question [q], after
    [n] earlier rounds: what is printed, or [None] when the evaluation
    does not return. *)
Definition answer `{Generator} `{Interpreter} `{SetOrder} (n : nat)
    (df : DataFrame) (df_head_str q : string) : option (list printed) :=
  let on_error (r : result (list printed)) : list printed :=
    match r with
    | Ok out => out
    | Raise e => [Notice ("[red]Errore:[/] " +:+ e)]
    end in
  match get_polars_expression n q df_head_str "gemini-2.5-flash" with
  | Raise e => Some (on_error (Raise e))
  | Ok expr =>
      let said := Notice ("[cyan]Espressione generata:[/] " +:+ expr) in
      match py_eval expr ∅ (local_ns df) with
      | None => None
      | Some (Raise e) => Some (said :: on_error (Raise e))
      | Some (Ok res) =>
          let res :=
            match res with
            | ObjLazy plan => plan
            | ObjFrame table => Ok table
            | _ => rmap Polars.of_scalar (py_cell res)
            end in
          Some (said :: on_error (rbind res (λ res,
                  let cols_used := extract_cols expr in
                  bullets res cols_used)))
      end
  end.

End Filters3.

(** ** The specification's wording, for comparison with the code *)

Module Spec.

(** Keep the first occurrence of each text that is not in [seen]. *)
Fixpoint keep_first (seen l : list string) : list string :=
  match l with
  | [] => []
  | x :: l' =>
      if bool_decide (x ∈ seen) then keep_first seen l'
      else x :: keep_first (seen ++ [x]) l'
  end.

(** ColumnResolver: the first Name alias among the result's columns,
    then the first Price alias not already added, then the first Year
    alias not already added, then the other extracted identifiers that
    are result columns, in their order, once each. *)
Definition display_columns (result_columns extracted : list string)
    : list string :=
  let name :=
    option_list
      (List.find (λ c, bool_decide (c ∈ result_columns)) App.NAME_COLS) in
  let price :=
    option_list
      (List.find (λ c, bool_decide (c ∈ result_columns)
                       && negb (bool_decide (c ∈ name)))
                 App.PRICE_COLS) in
  let year :=
    option_list
      (List.find (λ c, bool_decide (c ∈ result_columns)
                       && negb (bool_decide (c ∈ name ++ price)))
                 App.YEAR_COLS) in
  let fixed := name ++ price ++ year in
  fixed
  ++ keep_first []
       (filter (λ c, c ∈ result_columns ∧ c ∉ fixed) extracted).






End Spec.

(** ** The course of one call of [query_boats] *)

Module Trace.

(** The answer of [query_boats]. *)
Abbreviation answer := (string * DataFrame * list string)%type.

(** What [get_polars_expression] returns when its request is the
    [n]-th one. *)
Definition expression_of `{Generator} (n : nat) (model prompt : string)
    : string :=
  match generate_content n model prompt with
  | Ok text => App.clean_reply text
  | Raise _ => ""
  end.

(** The requests a run adds to those made before it. *)
Definition new_calls (before after : World) : list (string * string) :=
  drop (length (calls before)) (calls after).

Section Runs.
Context `{Generator} `{Interpreter} `{SetOrder}.
Variables (df : DataFrame) (query df_head_str model : string).

(** [run n error expr i new out]: with [n] rounds to go, the last
    error [error], the last expression [expr] and [i] requests made so
    far, the loop sends the requests [new] and ends with [out]
    ([None] when it does not end). *)
Inductive run : nat → option string → string → nat
                → list (string * string) → option answer → Prop :=
| run_exhausted error expr i :
    run 0 error expr i [] (Some (expr, Polars.empty, []))
| run_empty n error expr i :
    let prompt := App.build_prompt query df_head_str error in
    expression_of i model prompt = "" →
    run (S n) error expr i [(model, prompt)]
        (Some ("", Polars.empty, []))
| run_hangs n error expr i :
    let prompt := App.build_prompt query df_head_str error in
    expression_of i model prompt ≠ "" →
    App.try_expression df (expression_of i model prompt) = None →
    run (S n) error expr i [(model, prompt)] None
| run_succeeds n error expr i a :
    let prompt := App.build_prompt query df_head_str error in
    expression_of i model prompt ≠ "" →
    App.try_expression df (expression_of i model prompt) = Some (Ok a) →
    run (S n) error expr i [(model, prompt)] (Some a)
| run_retries n error expr i msg new out :
    let prompt := App.build_prompt query df_head_str error in
    expression_of i model prompt ≠ "" →
    App.try_expression df (expression_of i model prompt)
      = Some (Raise msg) →
    run n (Some msg) (expression_of i model prompt) (S i) new out →
    run (S n) error expr i ((model, prompt) :: new) out.
End Runs.

(** The number of boat cards among what the page shows. *)
Definition is_card (e : ui_event) : bool :=
  match e with UiCard _ _ => true | _ => false end.

Definition cards (events : list ui_event) : nat :=
  length (List.filter is_card events).

(** The number of boat headers among what the console receives. *)
Definition is_row_header (p : Filters3.printed) : bool :=
  match p with Filters3.RowHeader _ => true | _ => false end.

Definition row_headers (out : list Filters3.printed) : nat :=
  length (List.filter is_row_header out).

End Trace.

(** ** Concrete collaborators, for the worked examples *)

Module Fixture.

(** A set that iterates in the order of first insertion. *)
Program Definition dedup_order : SetOrder :=
  {| list_of_set := remove_dups |}.
Next Obligation. apply NoDup_remove_dups. Qed.
Next Obligation. intros l x. apply elem_of_remove_dups. Qed.

(** An interpreter for a few expressions.  The text [df.filter(] does not
    compile.  [sum(iter(int, 1))] adds up the endless iterator of the
    zeros that [int()] returns (the sentinel 1 never comes), so its
    evaluation does not return.  Any other expression is taken to be a
    single name that is no builtin: it is looked up in the namespaces,
    and a name bound nowhere raises [NameError].  A value is stored in a
    cell as it is.  Floats are printed with 17 decimals and a table as
    its column names. *)
Definition name_interpreter : Interpreter :=
  {| py_compile expr :=
       if String.eqb expr "df.filter(" then
         Raise "'(' was never closed (<string>, line 1)"
       else Ok tt;
     py_eval expr globals locals :=
       if String.eqb expr "sum(iter(int, 1))" then None
       else
         Some match Eval.resolve ∅ globals locals expr with
              | Some o => Ok o
              | None => Raise ("name '" +:+ expr +:+ "' is not defined")
              end;
     py_cell o :=
       Ok match o with
          | ObjValue v => v
          | ObjModule name => VOther name
          | _ => VNone
          end;
     float_repr f := Float.format_f 17 false f;
     to_pandas_string df := String.concat " " (Polars.columns df) |}.

(** A service that sends the same reply to every request. *)
Definition always (reply : result string) : Generator :=
  {| generate_content _ _ _ := reply |}.

(** A service that works through a list of replies. *)
Definition scripted (replies : list (result string)) : Generator :=
  {| generate_content n _ _ :=
       default (Raise "service unavailable") (replies !! n) |}.

(** A table of boats with [n] rows. *)
Definition boats (n : nat) : DataFrame :=
  [ mkSeries "name" ((λ i, VStr "Azimut") <$> seq 0 n);
    mkSeries "price" ((λ i, VInt (Z.of_nat (1000 * i))) <$> seq 0 n) ].

End Fixture.

(* ===================================================================== *)
(** * Part II: lemmas and theorems                                         *)
(* ===================================================================== *)

(** ** Worked evaluations *)

Example number_spans_of_a_query :
  App.extract_number_spans "boats under 500,000 or 12.5a, x1 and 1.2.3"
  = [("500,000", 12, 19); ("12", 23, 25); ("1.2", 37, 40); ("3", 41, 42)].
Proof. vm_compute. reflexivity. Qed.

Example columns_named_by_an_expression :
  Re.findall App.col_pattern
    "df.filter((pl.col('price')<5e5) & (pl.col( 'max_speed' ).is_max()))"
  = ["price"; "max_speed"]
  ∧ Re.findall App.index_pattern "df[df['price'] < 3][ 'x' ]" = ["price"].
Proof. vm_compute. split; reflexivity. Qed.

Example fenced_reply_is_unwrapped :
  App.clean_reply ("```python" +:+ Str.nl +:+ "df.head()" +:+ Str.nl +:+ "```")
  = "df.head()"
  ∧ App.clean_reply ("  df.head() " +:+ Str.nl) = "df.head()".
Proof. vm_compute. split; reflexivity. Qed.

Example display_columns_of_a_table :
  App.get_display_columns
    [mkSeries "year" []; mkSeries "name" []; mkSeries "cost" [];
     mkSeries "length" []]
    ["length"; "beam"; "name"; "length"]
  = ["name"; "cost"; "year"; "length"].
Proof. vm_compute. reflexivity. Qed.

Example column_label : Str.title (Str.replace_char "_" " " "build_year")
                       = "Build Year".
Proof. vm_compute. reflexivity. Qed.

(** Rounding follows the binary value: 1.15 is below the decimal 1.15 as a
    float, 999.999 rounds up to 1000, 45.5 is a tie and goes to even. *)
Example price_texts_at_the_edges :
  @App.format_value Fixture.name_interpreter (VInt 1150000) "price"
  = Ok "€1.1M"
  ∧ @App.format_value Fixture.name_interpreter (VInt 999999) "price"
    = Ok "€1000K"
  ∧ @App.format_value Fixture.name_interpreter (VInt 45500) "cost"
    = Ok "€46K"
  ∧ @App.format_value Fixture.name_interpreter (VInt (-1234567)) "prezzo"
    = Ok "€-1,234,567"
  ∧ @App.format_value Fixture.name_interpreter (VInt 2500000) "length"
    = Ok "2500000".
Proof. vm_compute. repeat split; reflexivity. Qed.

(** ** Text *)

Section StrFacts.
Implicit Types s t u : string.

Lemma str_app_cons c s t : String c s +:+ t = String c (s +:+ t).
Proof. reflexivity. Qed.

Lemma str_app_nil_l s : "" +:+ s = s.
Proof. reflexivity. Qed.

Lemma str_app_nil_r s : s +:+ "" = s.
Proof. induction s as [|c s IH]; [done|]. by rewrite str_app_cons, IH. Qed.

Lemma str_app_assoc s t u : (s +:+ t) +:+ u = s +:+ t +:+ u.
Proof. induction s as [|c s IH]; [done|]. by rewrite !str_app_cons, IH. Qed.

Lemma str_length_app s t :
  String.length (s +:+ t) = String.length s + String.length t.
Proof. induction s as [|c s IH]; [done|]. rewrite str_app_cons. simpl. lia. Qed.

Lemma take_app_exact s t : Str.take (String.length s) (s +:+ t) = s.
Proof.
  induction s as [|c s IH]; [by destruct t|].
  rewrite str_app_cons. simpl. by rewrite IH.
Qed.

Lemma drop_app_exact s t : Str.drop (String.length s) (s +:+ t) = t.
Proof.
  induction s as [|c s IH]; [by destruct t|].
  rewrite str_app_cons. simpl. by rewrite IH.
Qed.

Lemma contains_refl s : Str.contains s s.
Proof. exists "", "". by rewrite str_app_nil_l, str_app_nil_r. Qed.

Lemma contains_app_r s t u : Str.contains s u → Str.contains s (t +:+ u).
Proof.
  intros (pre & post & ->). exists (t +:+ pre), post. by rewrite str_app_assoc.
Qed.

Lemma contains_app_l s t u : Str.contains s t → Str.contains s (t +:+ u).
Proof.
  intros (pre & post & ->). exists pre, (post +:+ u).
  by rewrite !str_app_assoc.
Qed.

Lemma contains_empty s : Str.contains "" s.
Proof. exists "", s. done. Qed.
End StrFacts.

(** ** The matcher only reads forward *)

Section ReFacts.
Import Re.

(** [c'] lies [w] further in the same text as [c]. *)
Definition reaches (c c' : cursor) : Prop :=
  ∃ w, rest c = w +:+ rest c' ∧ pos c' = pos c + String.length w.

Lemma reaches_refl c : reaches c c.
Proof. exists "". split; [done | simpl; lia]. Qed.

Lemma reaches_trans c1 c2 c3 : reaches c1 c2 → reaches c2 c3 → reaches c1 c3.
Proof.
  intros (w1 & E1 & P1) (w2 & E2 & P2). exists (w1 +:+ w2).
  rewrite str_app_assoc, <- E2, <- E1, str_length_app. split; [done | lia].
Qed.

Lemma reaches_next b n g c s b' g' :
  reaches (Cursor b n (String c s) g) (Cursor b' (S n) s g').
Proof. exists (String c ""). simpl. split; [done | lia]. Qed.

Lemma reaches_same_place c b g c' :
  reaches c c' → reaches c (Cursor b (pos c') (rest c') g).
Proof. intros (w & E & P). by exists w. Qed.

Lemma rep_go_sound {A} p (k : cursor → option A) s :
  ∀ b n g m,
    rep_go p k b n g s = Some m →
    ∃ c', reaches (Cursor b n s g) c' ∧ k c' = Some m.
Proof.
  induction s as [|c s IH]; intros b n g m; simpl.
  - intros Hk. eexists. split; [apply reaches_refl | done].
  - destruct (p c).
    + destruct (rep_go p k (Some c) (S n) g s) as [m'|] eqn:Hgo.
      * intros [= ->]. destruct (IH _ _ _ _ Hgo) as (c' & Hr & Hk).
        exists c'. split; [|done].
        eapply reaches_trans; [apply reaches_next | exact Hr].
      * intros Hk. eexists. split; [apply reaches_refl | done].
    + intros Hk. eexists. split; [apply reaches_refl | done].
Qed.

Lemma step1_sound {A} p cur (k : ascii → string → option A) m :
  step1 p cur k = Some m →
  ∃ c s, rest cur = String c s ∧ p c = true ∧ k c s = Some m.
Proof.
  unfold step1. destruct (rest cur) as [|c s]; [done|].
  destruct (p c) eqn:Hp; [|done]. intros Hk. by exists c, s.
Qed.

Lemma run_sound {A} r :
  ∀ cur (k : cursor → option A) m,
    run r cur k = Some m → ∃ c', reaches cur c' ∧ k c' = Some m.
Proof.
  induction r as [|c|p|p|r IH|r1 IH1 r2 IH2| |r IH]; intros cur k m; simpl.
  - intros Hk. exists cur. split; [apply reaches_refl | done].
  - intros (d & s & E & _ & Hk)%step1_sound. eexists. split; [|exact Hk].
    destruct cur as [b n t g]; simpl in *; subst t. apply reaches_next.
  - intros (d & s & E & _ & Hk)%step1_sound. eexists. split; [|exact Hk].
    destruct cur as [b n t g]; simpl in *; subst t. apply reaches_next.
  - intros (d & s & E & _ & Hk)%step1_sound.
    apply rep_go_sound in Hk as (c' & Hr & Hk). exists c'. split; [|done].
    destruct cur as [b n t g]; simpl in *; subst t.
    eapply reaches_trans; [apply reaches_next | exact Hr].
  - destruct (run r cur k) as [m'|] eqn:Hrun.
    + intros [= ->]. by apply IH.
    + intros Hk. exists cur. split; [apply reaches_refl | done].
  - intros (c1 & Hr1 & Hk1)%IH1. apply IH2 in Hk1 as (c2 & Hr2 & Hk2).
    exists c2. split; [by eapply reaches_trans | done].
  - destruct (xorb _ _); [|done].
    intros Hk. exists cur. split; [apply reaches_refl | done].
  - intros (c' & Hr & Hk)%IH. eexists. split; [|exact Hk].
    by apply reaches_same_place.
Qed.

(** A match is a piece of the text it was found in. *)
Lemma match_at_sound r cur m :
  match_at r cur = Some m →
  ∃ tl, rest cur = m_text m +:+ tl
        ∧ m_start m = pos cur
        ∧ m_end m = pos cur + String.length (m_text m).
Proof.
  unfold match_at. intros (c' & (w & E & P) & [= <-])%run_sound. simpl.
  replace (pos c' - pos cur) with (String.length w) by lia.
  rewrite E, take_app_exact. by exists (rest c').
Qed.

(** The span of [m] is where its text is in [text]. *)
Definition in_place (text : string) (m : rmatch) : Prop :=
  ∃ pre post,
    text = pre +:+ m_text m +:+ post
    ∧ m_start m = String.length pre
    ∧ m_end m = String.length pre + String.length (m_text m).

Lemma finditer_go_in_place r s :
  ∀ pre b skip,
    Forall (in_place (pre +:+ s))
           (finditer_go r b (String.length pre) skip s).
Proof.
  induction s as [|c s IH]; intros pre b skip; simpl; [constructor|].
  assert (Hnext : ∀ b' skip',
    Forall (in_place (pre +:+ String c s))
           (finditer_go r b' (S (String.length pre)) skip' s)).
  { intros b' skip'.
    specialize (IH (pre +:+ String c "") b' skip').
    rewrite str_app_assoc, str_length_app in IH. simpl in IH.
    by rewrite Nat.add_1_r in IH. }
  destruct skip as [|skip]; [|apply Hnext].
  destruct (match_at r _) as [m|] eqn:Hm; [|apply Hnext].
  constructor; [|apply Hnext].
  apply match_at_sound in Hm as (tl & E & Hs & He). simpl in *.
  exists pre, tl. by rewrite <- E.
Qed.

Lemma finditer_in_place r text : Forall (in_place text) (finditer r text).
Proof. apply (finditer_go_in_place r text "" None 0). Qed.
End ReFacts.

(** ** NumericTokenEditor *)

Section NumberSpans.

(** Writing a span's own text back changes nothing. *)
Lemma splice_own_text text m :
  in_place text m →
  Str.take (Re.m_start m) text +:+ Re.m_text m
    +:+ Str.drop (Re.m_end m) text = text.
Proof.
  intros (pre & post & -> & -> & ->). rewrite take_app_exact.
  do 2 f_equal.
  by rewrite <- str_length_app, <- (str_app_assoc pre), drop_app_exact.
Qed.

Lemma rewrite_own_texts text (ms : list Re.rmatch) :
  Forall (in_place text) ms →
  fold_left
    (λ updated_query '((_, start, end_), new_val),
       Str.take start updated_query +:+ new_val
         +:+ Str.drop end_ updated_query)
    (zip ((λ m, (Re.m_text m, Re.m_start m, Re.m_end m)) <$> ms)
         (Re.m_text <$> ms))
    text = text.
Proof.
  induction 1 as [|m ms Hm _ IH]; [done|]. simpl.
  by rewrite splice_own_text.
Qed.

End NumberSpans.

(** C9.  For every text, writing back into each span found by
    [extract_number_spans] the literal of that span, last span first as
    the loop of [main] does, gives the text again. *)
Theorem C9_rewrite_with_own_literals_is_identity (text : string) :
  let numbers := App.extract_number_spans text in
  App.rewrite_numbers text numbers ((λ span, span.1.1) <$> numbers) = text.
Proof.
  unfold App.rewrite_numbers, App.extract_number_spans. simpl.
  rewrite <- !fmap_reverse, <- list_fmap_compose.
  apply (rewrite_own_texts text (reverse (Re.finditer App.number_pattern text))).
  apply Forall_reverse, finditer_in_place.
Qed.

(** ** ColumnResolver *)

Section DisplayColumns.
Implicit Types l qs acc seen columns : list string.

Lemma find_agree {A} (f g : A → bool) (l : list A) :
  (∀ x, x ∈ l → f x = g x) → List.find f l = List.find g l.
Proof.
  induction l as [|x l IH]; intros Hfg; [done|]. simpl.
  rewrite <- (Hfg x) by left. destruct (f x); [done|].
  apply IH. intros y Hy. apply Hfg. by right.
Qed.

Lemma find_elem {A} (f : A → bool) (l : list A) x :
  List.find f l = Some x → x ∈ l.
Proof. intros [Hin _]%find_some. by apply list_elem_of_In. Qed.

(** The alias tables share no spelling and hold no empty one. *)
Lemma price_not_name c : c ∈ App.PRICE_COLS → c ∉ App.NAME_COLS.
Proof.
  revert c. apply Forall_forall.
  by apply (bool_decide_unpack _); vm_compute.
Qed.

Lemma year_not_name c : c ∈ App.YEAR_COLS → c ∉ App.NAME_COLS.
Proof.
  revert c. apply Forall_forall.
  by apply (bool_decide_unpack _); vm_compute.
Qed.

Lemma year_not_price c : c ∈ App.YEAR_COLS → c ∉ App.PRICE_COLS.
Proof.
  revert c. apply Forall_forall.
  by apply (bool_decide_unpack _); vm_compute.
Qed.

Lemma alias_not_empty c :
  c ∈ App.NAME_COLS ++ App.PRICE_COLS ++ App.YEAR_COLS →
  String.eqb c "" = false.
Proof.
  revert c. apply Forall_forall.
  by apply (bool_decide_unpack _); vm_compute.
Qed.

Lemma keep_first_seen extra l :
  ∀ seen,
    Spec.keep_first (extra ++ seen) l
    = Spec.keep_first seen (filter (λ c, c ∉ extra) l).
Proof.
  induction l as [|x l IH]; intros seen; [done|].
  rewrite filter_cons. simpl. destruct (decide (x ∉ extra)) as [Hx|Hx].
  - simpl. destruct (decide (x ∈ seen)) as [Hs|Hs].
    + rewrite !bool_decide_eq_true_2; [apply IH | done |].
      apply elem_of_app. by right.
    + rewrite !bool_decide_eq_false_2; [|done|].
      * f_equal. rewrite <- (assoc_L (++)). apply IH.
      * rewrite not_elem_of_app. done.
  - rewrite bool_decide_eq_true_2; [apply IH|].
    apply elem_of_app. left. by apply dec_stable.
Qed.

(** The loop over [query_cols] appends, in order, what is a column and
    not yet listed. *)
Lemma append_query_cols columns qs :
  ∀ acc,
    fold_left
      (λ display_cols col,
         if bool_decide (col ∈ columns)
            && negb (bool_decide (col ∈ display_cols))
         then display_cols ++ [col] else display_cols)
      qs acc
    = acc ++ Spec.keep_first acc (filter (λ c, c ∈ columns) qs).
Proof.
  induction qs as [|q qs IH]; intros acc; simpl.
  { by rewrite app_nil_r. }
  rewrite filter_cons. destruct (decide (q ∈ columns)) as [Hq|Hq].
  - rewrite (bool_decide_eq_true_2 _ Hq). simpl.
    destruct (decide (q ∈ acc)) as [Ha|Ha].
    + rewrite (bool_decide_eq_true_2 _ Ha). simpl. apply IH.
    + rewrite (bool_decide_eq_false_2 _ Ha). simpl.
      rewrite IH. by rewrite <- (assoc_L (++)).
  - rewrite (bool_decide_eq_false_2 _ Hq). simpl. apply IH.
Qed.

Lemma first_present_elem aliases columns c :
  App.first_present aliases columns = Some c → c ∈ aliases.
Proof. apply find_elem. Qed.

Lemma found_alias_elem aliases columns c :
  c ∈ option_list (App.first_present aliases columns) → c ∈ aliases.
Proof.
  destruct (App.first_present aliases columns) as [n|] eqn:Hn; simpl.
  - intros ->%list_elem_of_singleton. by eapply first_present_elem.
  - by intros ?%elem_of_nil.
Qed.

(** The guarded [append] of an alias adds it whenever one was found. *)
Lemma append_alias acc (x : option string) :
  (∀ c, x = Some c → String.eqb c "" = false ∧ c ∉ acc) →
  match x with
  | Some c =>
      if App.truthy x && negb (bool_decide (c ∈ acc))
      then acc ++ [c] else acc
  | None => acc
  end = acc ++ option_list x.
Proof.
  destruct x as [c|]; intros Hx; simpl; [|by rewrite app_nil_r].
  destruct (Hx c eq_refl) as [-> Hc].
  by rewrite (bool_decide_eq_false_2 _ Hc).
Qed.

(** [get_display_columns] in one line. *)
Lemma get_display_columns_unfold (df : DataFrame) qs :
  App.get_display_columns df qs
  = let fixed :=
      option_list (App.first_present App.NAME_COLS (Polars.columns df))
      ++ option_list (App.first_present App.PRICE_COLS (Polars.columns df))
      ++ option_list (App.first_present App.YEAR_COLS (Polars.columns df)) in
    fixed
    ++ Spec.keep_first fixed (filter (λ c, c ∈ Polars.columns df) qs).
Proof.
  unfold App.get_display_columns. cbv zeta. rewrite append_query_cols.
  set (name := App.first_present App.NAME_COLS (Polars.columns df)).
  set (price := App.first_present App.PRICE_COLS (Polars.columns df)).
  set (year := App.first_present App.YEAR_COLS (Polars.columns df)).
  assert (Hname : match name with
                  | Some c => if App.truthy name then [] ++ [c] else []
                  | None => []
                  end = option_list name).
  { destruct name as [c|] eqn:Hn; [|done]. simpl.
    apply first_present_elem in Hn.
    rewrite (alias_not_empty c); [done|]. apply elem_of_app. by left. }
  rewrite Hname.
  rewrite (append_alias (option_list name) price).
  2: { intros c Hc%first_present_elem. split.
       - apply alias_not_empty. rewrite !elem_of_app. auto.
       - intros ?%found_alias_elem. by apply (price_not_name c). }
  rewrite (append_alias _ year).
  2: { intros c Hc%first_present_elem. split.
       - apply alias_not_empty. rewrite !elem_of_app. auto.
       - intros [?%found_alias_elem | ?%found_alias_elem]%elem_of_app.
         + by apply (year_not_name c).
         + by apply (year_not_price c). }
  by rewrite <- !(assoc_L (++)).
Qed.

Lemma spec_display_columns_unfold columns qs :
  Spec.display_columns columns qs
  = let fixed :=
      option_list (App.first_present App.NAME_COLS columns)
      ++ option_list (App.first_present App.PRICE_COLS columns)
      ++ option_list (App.first_present App.YEAR_COLS columns) in
    fixed ++ Spec.keep_first fixed (filter (λ c, c ∈ columns) qs).
Proof.
  unfold Spec.display_columns.
  change (List.find (λ c, bool_decide (c ∈ columns)) App.NAME_COLS)
    with (App.first_present App.NAME_COLS columns).
  set (name := option_list (App.first_present App.NAME_COLS columns)).
  rewrite (find_agree _ (λ c, bool_decide (c ∈ columns)) App.PRICE_COLS).
  2: { intros c Hc. rewrite (bool_decide_eq_false_2 (c ∈ name)).
       - simpl. by rewrite andb_true_r.
       - intros ?%found_alias_elem. by apply (price_not_name c). }
  change (List.find (λ c, bool_decide (c ∈ columns)) App.PRICE_COLS)
    with (App.first_present App.PRICE_COLS columns).
  set (price := option_list (App.first_present App.PRICE_COLS columns)).
  rewrite (find_agree _ (λ c, bool_decide (c ∈ columns)) App.YEAR_COLS).
  2: { intros c Hc. rewrite (bool_decide_eq_false_2 (c ∈ name ++ price)).
       - simpl. by rewrite andb_true_r.
       - intros [?%found_alias_elem | ?%found_alias_elem]%elem_of_app.
         + by apply (year_not_name c).
         + by apply (year_not_price c). }
  change (List.find (λ c, bool_decide (c ∈ columns)) App.YEAR_COLS)
    with (App.first_present App.YEAR_COLS columns).
  set (year := option_list (App.first_present App.YEAR_COLS columns)).
  cbv zeta. f_equal.
  rewrite <- (app_nil_r (name ++ price ++ year)) at 1.
  rewrite keep_first_seen, list_filter_filter.
  f_equal. apply list_filter_iff. intros c. tauto.
Qed.

End DisplayColumns.

(** C7.  For every expression text and every result table, the display
    list is the first Name alias among the result's columns, then the
    first Price alias not already added, then the first Year alias not
    already added, then the other identifiers extracted from the
    expression that are result columns, in their order and once each;
    extracted identifiers that are not result columns do not appear. *)
Theorem C7_display_columns_order `{SetOrder} (expr : string) (res : DataFrame) :
  App.get_display_columns res (App.extract_cols expr)
  = Spec.display_columns (Polars.columns res) (App.extract_cols expr).
Proof.
  by rewrite get_display_columns_unfold, spec_display_columns_unfold.
Qed.

(** C10.  The two copies of the column logic agree: for every expression
    [extract_cols] of app.py and of filters3.py yield the same
    identifiers (each under its own set order), and for every table and
    list of extracted columns the two [get_display_columns] yield the same
    list. *)
Theorem C10_column_logic_of_both_entry_points_agrees :
  (∀ (o1 o2 : SetOrder) (expr c : string),
     c ∈ @App.extract_cols o1 expr ↔ c ∈ @Filters3.extract_cols o2 expr)
  ∧ (∀ (df : DataFrame) (query_cols : list string),
       App.get_display_columns df query_cols
       = Filters3.get_display_columns df query_cols).
Proof.
  split.
  - intros o1 o2 expr c. unfold App.extract_cols, Filters3.extract_cols.
    by rewrite !list_of_set_elem.
  - reflexivity.
Qed.

(** ** ResultFormatter: prices *)

(** *** Division and rounding of binary64 *)

Section DivisionAccuracy.
Local Open Scope Z_scope.
























End DivisionAccuracy.

Section Grouping.





End Grouping.

Section PriceText.
Context `{Interpreter}.
Local Open Scope Z_scope.



















End PriceText.



(** ** RetryController *)

Arguments App.build_prompt : simpl never.
Arguments App.try_expression : simpl never.
Arguments Trace.expression_of : simpl never.

Section Retry.
Context `{Generator} `{Interpreter} `{SetOrder}.
Variables (df : DataFrame) (query df_head_str model : string).

Import Trace.

Abbreviation run := (Trace.run df query df_head_str model).

(** One request, as a state change. *)
Lemma get_polars_expression_run error w :
  ∃ shown',
    App.get_polars_expression query df_head_str model error w
    = (mkWorld
         (calls w ++ [(model, App.build_prompt query df_head_str error)])
         shown',
       Some (expression_of (length (calls w)) model
               (App.build_prompt query df_head_str error))).
Proof.
  unfold App.get_polars_expression, request, bind, expression_of. simpl.
  destruct (generate_content _ _ _) as [text|e]; simpl; eauto.
Qed.

(** The loop follows [run]. *)
Lemma attempts_run n :
  ∀ error expr w,
    ∃ new,
      calls (App.attempts n df query df_head_str model error expr w).1
      = calls w ++ new
      ∧ run n error expr (length (calls w)) new
            (App.attempts n df query df_head_str model error expr w).2.
Proof.
  induction n as [|n IH]; intros error expr w.
  - exists []. simpl. rewrite app_nil_r. split; [done | constructor].
  - cbn [App.attempts]. unfold bind.
    destruct (get_polars_expression_run error w) as (shown' & ->).
    set (prompt := App.build_prompt query df_head_str error).
    set (e := expression_of (length (calls w)) model prompt).
    destruct (String.eqb_spec e "") as [He|He].
    + exists [(model, prompt)]. simpl. split; [done|].
      by apply run_empty.
    + destruct (App.try_expression df e) as [[a|msg]|] eqn:Htry.
      * exists [(model, prompt)]. simpl. split; [done|].
        by apply run_succeeds.
      * destruct (IH (Some msg) e
                    (mkWorld (calls w ++ [(model, prompt)]) shown'))
          as (new & Hcalls & Hrun).
        exists ((model, prompt) :: new). split.
        -- rewrite Hcalls. simpl. by rewrite <- (assoc_L (++)).
        -- simpl in Hrun. rewrite length_app in Hrun. simpl in Hrun.
           rewrite Nat.add_1_r in Hrun. by eapply run_retries.
      * exists [(model, prompt)]. simpl. split; [done|].
        by apply run_hangs.
Qed.

Lemma new_calls_app w w' new :
  calls w' = calls w ++ new → new_calls w w' = new.
Proof. unfold new_calls. intros ->. by rewrite drop_app_length. Qed.

(** *** What holds along every run *)

Lemma run_length n error expr i new out :
  run n error expr i new out → length new ≤ n.
Proof. induction 1; simpl; lia. Qed.

Lemma run_first n error expr i new out mp :
  run n error expr i new out →
  new !! 0 = Some mp →
  mp = (model, App.build_prompt query df_head_str error).
Proof. destruct 1; intros; by simplify_eq/=. Qed.

(** A request that follows another one carries the error of the attempt
    before it. *)
Lemma run_feedback n error expr i new out :
  run n error expr i new out →
  ∀ k mp mp',
    new !! k = Some mp → new !! S k = Some mp' →
    ∃ msg,
      expression_of (i + k) mp.1 mp.2 ≠ ""
      ∧ App.try_expression df (expression_of (i + k) mp.1 mp.2)
        = Some (Raise msg)
      ∧ mp' = (model, App.build_prompt query df_head_str (Some msg)).
Proof.
  induction 1 as [| | | |n error expr i msg new out prompt He Htry Hrun IH];
    intros k mp mp' Hk HSk; try (by destruct k).
  destruct k as [|k]; simpl in *.
  - injection Hk as <-. simpl. rewrite Nat.add_0_r. exists msg.
    split; [done|]. split; [done|]. by eapply run_first.
  - replace (i + S k) with (S i + k) by lia. by eapply IH.
Qed.

(** A failed attempt is followed by a request while rounds remain. *)
Lemma run_progress n error expr i new out :
  run n error expr i new out →
  ∀ k mp msg,
    new !! k = Some mp →
    expression_of (i + k) mp.1 mp.2 ≠ "" →
    App.try_expression df (expression_of (i + k) mp.1 mp.2)
    = Some (Raise msg) →
    S k < n →
    is_Some (new !! S k).
Proof.
  induction 1 as [|n error expr i prompt He
                 |n error expr i prompt He Htry
                 |n error expr i a prompt He Htry
                 |n error expr i msg new out prompt He Htry Hrun IH];
    intros k mp msg' Hk Hne Hraise Hlt; try done;
    destruct k as [|k]; simpl in *; try done;
    try (injection Hk as <-; simpl in Hne, Hraise;
         rewrite Nat.add_0_r in Hne, Hraise; congruence).
  - destruct Hrun; simpl; by eauto || lia.
  - replace (i + S k) with (S i + k) in Hne, Hraise by lia.
    eapply IH; eauto. lia.
Qed.

(** An empty generation is the last request, and the answer is empty. *)
Lemma run_empty_generation n error expr i new out :
  run n error expr i new out →
  ∀ k mp,
    new !! k = Some mp →
    expression_of (i + k) mp.1 mp.2 = "" →
    length new = S k ∧ out = Some ("", Polars.empty, []).
Proof.
  induction 1 as [| | | |n error expr i msg new out prompt He Htry Hrun IH];
    intros k mp Hk Hempty; try done;
    destruct k as [|k]; simpl in *; try done;
    try (injection Hk as <-; simpl in Hempty;
         rewrite Nat.add_0_r in Hempty; done).
  replace (i + S k) with (S i + k) in Hempty by lia.
  destruct (IH _ _ Hk Hempty) as [-> ->]. done.
Qed.

(** An evaluation that does not return is the end of the run. *)
Lemma run_no_return n error expr i new out :
  run n error expr i new out →
  ∀ k mp,
    new !! k = Some mp →
    expression_of (i + k) mp.1 mp.2 ≠ "" →
    App.try_expression df (expression_of (i + k) mp.1 mp.2) = None →
    length new = S k ∧ out = None.
Proof.
  induction 1 as [| | | |n error expr i msg new out prompt He Htry Hrun IH];
    intros k mp Hk Hne Hnone; try done;
    destruct k as [|k]; simpl in *; try done;
    try (injection Hk as <-; simpl in Hne, Hnone;
         rewrite Nat.add_0_r in Hne, Hnone; congruence).
  replace (i + S k) with (S i + k) in Hne, Hnone by lia.
  destruct (IH _ _ Hk Hne Hnone) as [-> ->]. done.
Qed.

(** When every generation fails to compile, all rounds are used and the
    answer holds the last expression and no rows. *)
Lemma run_all_malformed n error expr i new out :
  run n error expr i new out →
  (∀ k prompt, k < n →
     expression_of (i + k) model prompt ≠ ""
     ∧ ∃ msg, py_compile (expression_of (i + k) model prompt) = Raise msg) →
  length new = n
  ∧ ∃ e, out = Some (e, Polars.empty, [])
         ∧ (0 < n → ∃ mp, last new = Some mp
                          ∧ e = expression_of (i + (n - 1)) mp.1 mp.2).
Proof.
  induction 1 as [error expr i|n error expr i prompt He
                 |n error expr i prompt He Htry
                 |n error expr i a prompt He Htry
                 |n error expr i msg new out prompt He Htry Hrun IH];
    intros Hbad.
  - split; [done|]. exists expr. split; [done | lia].
  - destruct (Hbad 0 prompt) as [Hne _]; [lia|].
    rewrite Nat.add_0_r in Hne. done.
  - destruct (Hbad 0 prompt) as [_ [msg Hc]]; [lia|].
    rewrite Nat.add_0_r in Hc.
    unfold App.try_expression, App.run_expression in Htry.
    by rewrite Hc in Htry.
  - destruct (Hbad 0 prompt) as [_ [msg Hc]]; [lia|].
    rewrite Nat.add_0_r in Hc.
    unfold App.try_expression, App.run_expression in Htry.
    by rewrite Hc in Htry.
  - destruct IH as (Hlen & e & -> & Hlast).
    { intros k p Hk. replace (S i + k) with (i + S k) by lia.
      apply Hbad. lia. }
    split; [simpl; lia|]. exists e. split; [done|]. intros _.
    destruct n as [|n].
    + inversion Hrun; subst. exists (model, prompt). split; [done|].
      simpl. by rewrite Nat.add_0_r.
    + destruct Hlast as (mp & Hl & ->); [lia|]. exists mp. split.
      * destruct new; [done|]. by rewrite last_cons, Hl.
      * f_equal. lia.
Qed.

Lemma build_prompt_contains msg :
  Str.contains msg (App.build_prompt query df_head_str (Some msg)).
Proof.
  unfold App.build_prompt. simpl.
  destruct (String.eqb_spec msg "") as [->|_]; simpl.
  - apply contains_empty.
  - apply contains_app_r. unfold App.correction.
    do 3 apply contains_app_r. apply contains_app_l, contains_refl.
Qed.

End Retry.

Section QueryBoats.
Context `{Generator} `{Interpreter} `{SetOrder}.
Variables (df : DataFrame) (query model : string).

(** [query_boats] on a table with rows is one such run. *)
Lemma query_boats_run max_retries w :
  Polars.is_empty df = false →
  ∃ new,
    calls (App.query_boats df query model max_retries w).1 = calls w ++ new
    ∧ Trace.run df query (to_pandas_string (Polars.head 5 df)) model
        (Z.to_nat (max_retries + 1)) None "" (length (calls w)) new
        (App.query_boats df query model max_retries w).2.
Proof.
  intros Hrows. unfold App.query_boats. rewrite Hrows.
  apply attempts_run.
Qed.

(** On a table without rows nothing happens. *)
Lemma query_boats_no_rows max_retries w :
  Polars.is_empty df = true →
  App.query_boats df query model max_retries w
  = (w, Some ("", Polars.empty, [])).
Proof. intros Hrows. unfold App.query_boats. by rewrite Hrows. Qed.

End QueryBoats.

(** C3.  For every query, when the dataset has no rows [query_boats]
    returns the empty result (empty expression text, empty table, empty
    display list) and sends no request to the generator. *)
Theorem C3_empty_dataset_short_circuits `{Generator} `{Interpreter} `{SetOrder}
    (df : DataFrame) (query model : string) (max_retries : Z) (w : World) :
  Polars.height df = 0 →
  let r := App.query_boats df query model max_retries w in
  r.2 = Some ("", Polars.empty, [])
  ∧ r.1 = w
  ∧ Trace.new_calls w r.1 = [].
Proof.
  intros Hrows. cbv zeta. rewrite query_boats_no_rows.
  - repeat split. unfold Trace.new_calls. simpl. by rewrite drop_all.
  - unfold Polars.is_empty. by rewrite Hrows.
Qed.

Lemma C3_empty_dataset_short_circuits_witness :
  Polars.height (Fixture.boats 0) = 0
  ∧ (@App.query_boats (Fixture.always (Ok "df")) Fixture.name_interpreter
       Fixture.dedup_order (Fixture.boats 0) "cheap boats"
       "gemini-2.5-flash" 2 no_effects).2
    = Some ("", Polars.empty, []).
Proof.
  split; [reflexivity|].
  apply (@C3_empty_dataset_short_circuits (Fixture.always (Ok "df"))
           Fixture.name_interpreter Fixture.dedup_order (Fixture.boats 0)).
  reflexivity.
Defined.

(** C5.  If on any attempt the generator returns empty expression text (a
    failure of the service or an empty reply), that request is the last
    one and [query_boats] returns the empty result, however many attempts
    remain. *)
Theorem C5_empty_generation_is_terminal `{Generator} `{Interpreter} `{SetOrder}
    (df : DataFrame) (query model : string) (max_retries : Z) (w : World)
    (k : nat) (request : string * string) :
  let r := App.query_boats df query model max_retries w in
  Trace.new_calls w r.1 !! k = Some request →
  Trace.expression_of (length (calls w) + k) request.1 request.2 = "" →
  length (Trace.new_calls w r.1) = S k
  ∧ r.2 = Some ("", Polars.empty, []).
Proof.
  cbv zeta. intros Hk Hempty.
  destruct (Polars.is_empty df) eqn:Hrows.
  - rewrite query_boats_no_rows in Hk by done.
    unfold Trace.new_calls in Hk. simpl in Hk. by rewrite drop_all in Hk.
  - destruct (query_boats_run df query model max_retries w Hrows)
      as (new & Hcalls & Hrun).
    rewrite (new_calls_app _ _ _ Hcalls) in *.
    by eapply run_empty_generation.
Qed.

Lemma C5_empty_generation_is_terminal_witness :
  let r := @App.query_boats
             (Fixture.scripted [Ok "df.filter("; Raise "503 unavailable"; Ok "df"])
             Fixture.name_interpreter Fixture.dedup_order (Fixture.boats 3)
             "cheap boats" "gemini-2.5-flash" 2 no_effects in
  (∃ request,
     Trace.new_calls no_effects r.1 !! 1 = Some request
     ∧ @Trace.expression_of
         (Fixture.scripted [Ok "df.filter("; Raise "503 unavailable"; Ok "df"])
         (0 + 1) request.1 request.2 = "")
  ∧ length (Trace.new_calls no_effects r.1) = 2
  ∧ r.2 = Some ("", Polars.empty, []).
Proof.
  cbv zeta. split.
  - eexists. split; [vm_compute; reflexivity | reflexivity].
  - eapply (@C5_empty_generation_is_terminal
              (Fixture.scripted [Ok "df.filter("; Raise "503 unavailable"; Ok "df"])
              Fixture.name_interpreter Fixture.dedup_order (Fixture.boats 3)
              "cheap boats" "gemini-2.5-flash" 2 no_effects 1).
    + vm_compute. reflexivity.
    + reflexivity.
Defined.

(** C2.  For every query and every course of the generator, [query_boats]
    sends at most [max_retries + 1] requests; whenever a request follows
    another one, the attempt before it failed and its failure message is
    part of the prompt of the request that follows; an attempt that fails
    while retries remain is followed by such a request; and with
    [max_retries = 2] and three generations that do not compile, exactly
    three requests are sent and the answer is the exhausted failure: the
    last expression with no rows and no columns. *)
Theorem C2_bounded_retry_with_feedback `{Generator} `{Interpreter} `{SetOrder}
    (df : DataFrame) (query model : string) (max_retries : Z) (w : World) :
  (-1 ≤ max_retries)%Z →
  let r := App.query_boats df query model max_retries w in
  let new := Trace.new_calls w r.1 in
  let i := length (calls w) in
  (Z.of_nat (length new) ≤ max_retries + 1)%Z
  ∧ (∀ k request next,
       new !! k = Some request → new !! S k = Some next →
       ∃ msg,
         App.try_expression df
           (Trace.expression_of (i + k) request.1 request.2)
         = Some (Raise msg)
         ∧ Str.contains msg next.2)
  ∧ (∀ k request msg,
       new !! k = Some request →
       Trace.expression_of (i + k) request.1 request.2 ≠ "" →
       App.try_expression df
         (Trace.expression_of (i + k) request.1 request.2)
       = Some (Raise msg) →
       (Z.of_nat k < max_retries)%Z →
       ∃ next, new !! S k = Some next ∧ Str.contains msg next.2)
  ∧ (max_retries = 2%Z →
     Polars.is_empty df = false →
     (∀ k prompt, k < 3 →
        Trace.expression_of (i + k) model prompt ≠ ""
        ∧ ∃ msg,
            py_compile (Trace.expression_of (i + k) model prompt)
            = Raise msg) →
     length new = 3
     ∧ ∃ request,
         last new = Some request
         ∧ r.2 = Some (Trace.expression_of (i + 2) request.1 request.2,
                       Polars.empty, [])).
Proof.
  intros Hmax. cbv zeta.
  destruct (Polars.is_empty df) eqn:Hrows.
  - rewrite query_boats_no_rows by done.
    unfold Trace.new_calls. simpl. rewrite drop_all. simpl.
    split; [lia|]. split; [by intros []|]. split; [by intros []|]. done.
  - destruct (query_boats_run df query model max_retries w Hrows)
      as (new & Hcalls & Hrun).
    rewrite (new_calls_app _ _ _ Hcalls).
    split; [|split; [|split]].
    + apply run_length in Hrun. lia.
    + intros k request next Hk Hnext.
      destruct (run_feedback _ _ _ _ _ _ _ _ _ _ Hrun _ _ _ Hk Hnext)
        as (msg & _ & Htry & ->).
      exists msg. split; [done|]. apply build_prompt_contains.
    + intros k request msg Hk Hne Htry Hmore.
      destruct (run_progress _ _ _ _ _ _ _ _ _ _ Hrun _ _ _ Hk Hne Htry)
        as [next Hnext]; [lia|].
      exists next. split; [done|].
      destruct (run_feedback _ _ _ _ _ _ _ _ _ _ Hrun _ _ _ Hk Hnext)
        as (msg' & _ & Htry' & ->).
      rewrite Htry in Htry'. injection Htry' as <-.
      apply build_prompt_contains.
    + intros -> _ Hbad. change (Z.to_nat (2 + 1)) with 3 in Hrun.
      destruct (run_all_malformed _ _ _ _ _ _ _ _ _ _ Hrun Hbad)
        as (Hlen & e & Hout & Hlast).
      split; [done|]. destruct Hlast as (request & Hl & ->); [lia|].
      by exists request.
Qed.

Lemma C2_bounded_retry_with_feedback_witness :
  (-1 ≤ 2)%Z
  ∧ let r := @App.query_boats (Fixture.always (Ok "df.filter("))
               Fixture.name_interpreter Fixture.dedup_order
               (Fixture.boats 3) "cheap boats" "gemini-2.5-flash" 2
               no_effects in
    length (Trace.new_calls no_effects r.1) = 3
    ∧ ∃ request,
        last (Trace.new_calls no_effects r.1) = Some request
        ∧ r.2 = Some ("df.filter(", Polars.empty, []).
Proof.
  split; [lia|]. cbv zeta.
  destruct (@C2_bounded_retry_with_feedback (Fixture.always (Ok "df.filter("))
              Fixture.name_interpreter Fixture.dedup_order
              (Fixture.boats 3) "cheap boats" "gemini-2.5-flash" 2
              no_effects ltac:(lia))
    as (_ & _ & _ & Hscenario).
  destruct Hscenario as (Hlen & request & Hlast & Hout).
  - reflexivity.
  - reflexivity.
  - intros k prompt _. split; [discriminate|]. eexists. reflexivity.
  - split; [exact Hlen|]. exists request. split; [exact Hlast|]. exact Hout.
Defined.

(** C4 (as the code has it).  [query_boats] sets no ceiling on the
    execution of a generated expression.  An evaluation that raises an
    exception of class [Exception] is an ordinary failure: when a request
    follows, its prompt is built with the message as prior error.  An
    evaluation that does not return, or that is left through an exception
    outside [Exception], leaves [query_boats] without an answer, and no
    further request is sent. *)
Theorem C4_execution_has_no_ceiling `{Generator} `{Interpreter} `{SetOrder}
    (df : DataFrame) (query model : string) (max_retries : Z) (w : World)
    (k : nat) (request : string * string) :
  let r := App.query_boats df query model max_retries w in
  let new := Trace.new_calls w r.1 in
  let expr :=
    Trace.expression_of (length (calls w) + k) request.1 request.2 in
  new !! k = Some request →
  expr ≠ "" →
  py_compile expr = Ok tt →
  (py_eval expr ∅ (App.local_ns df) = None →
     length new = S k ∧ r.2 = None)
  ∧ (∀ msg next,
       py_eval expr ∅ (App.local_ns df) = Some (Raise msg) →
       new !! S k = Some next →
       next.2 = App.build_prompt query
                  (to_pandas_string (Polars.head 5 df)) (Some msg)).
Proof.
  cbv zeta. intros Hk Hne Hcompile.
  destruct (Polars.is_empty df) eqn:Hrows.
  { rewrite query_boats_no_rows in Hk by done.
    unfold Trace.new_calls in Hk. simpl in Hk. by rewrite drop_all in Hk. }
  destruct (query_boats_run df query model max_retries w Hrows)
    as (new & Hcalls & Hrun).
  rewrite (new_calls_app _ _ _ Hcalls) in *.
  split.
  - intros Heval. eapply run_no_return; [exact Hrun | exact Hk | exact Hne |].
    unfold App.try_expression, App.run_expression.
    by rewrite Hcompile, Heval.
  - intros msg next Heval Hnext.
    destruct (run_feedback _ _ _ _ _ _ _ _ _ _ Hrun _ _ _ Hk Hnext)
      as (msg' & _ & Htry & ->).
    unfold App.try_expression, App.run_expression in Htry.
    rewrite Hcompile, Heval in Htry. simpl in Htry. by injection Htry as ->.
Qed.

Lemma C4_execution_has_no_ceiling_witness :
  let r := @App.query_boats (Fixture.always (Ok "sum(iter(int, 1))"))
             Fixture.name_interpreter Fixture.dedup_order
             (Fixture.boats 3) "cheap boats" "gemini-2.5-flash" 2
             no_effects in
  (∃ request, Trace.new_calls no_effects r.1 !! 0 = Some request)
  ∧ length (Trace.new_calls no_effects r.1) = 1
  ∧ r.2 = None.
Proof.
  cbv zeta. split; [eexists; vm_compute; reflexivity|].
  eapply (@C4_execution_has_no_ceiling (Fixture.always (Ok "sum(iter(int, 1))"))
            Fixture.name_interpreter Fixture.dedup_order
            (Fixture.boats 3) "cheap boats" "gemini-2.5-flash" 2
            no_effects 0).
  - vm_compute. reflexivity.
  - discriminate.
  - reflexivity.
  - reflexivity.
Defined.

(** C4 as the specification words it does not hold: the expression
    [sum(iter(int, 1))] is generated and compiles; its evaluation sums an
    endless iterator and does not return.  Two retries remain, yet no
    failure is produced: [query_boats] has no answer and has sent one
    request only. *)
Lemma C4_counterexample :
  let r := @App.query_boats (Fixture.always (Ok "sum(iter(int, 1))"))
             Fixture.name_interpreter Fixture.dedup_order
             (Fixture.boats 3) "cheap boats" "gemini-2.5-flash" 2
             no_effects in
  @py_eval Fixture.name_interpreter "sum(iter(int, 1))" ∅
    (App.local_ns (Fixture.boats 3)) = None
  ∧ r.2 = None
  ∧ length (calls r.1) = 1.
Proof. vm_compute. repeat split; reflexivity. Qed.

(** ** ResultFormatter: the row cap *)

Section RowCap.
Context `{Interpreter}.

Lemma height_head n (df : DataFrame) :
  Polars.height (Polars.head n df) = n `min` Polars.height df.
Proof.
  destruct df as [|s df]; simpl; [lia|]. apply length_take.
Qed.

Lemma length_rows (df : DataFrame) :
  length (Polars.rows df) = Polars.height df.
Proof. unfold Polars.rows. by rewrite length_fmap, length_seq. Qed.

(** [head] keeps the first rows, in order. *)
Lemma rows_head n (df : DataFrame) :
  Polars.rows (Polars.head n df) = take n (Polars.rows df).
Proof.
  unfold Polars.rows. rewrite height_head, <- fmap_take, take_seq.
  apply Forall_fmap_ext_1, Forall_forall. intros i Hi%elem_of_seq.
  unfold Polars.row, Polars.head. rewrite <- list_fmap_compose.
  apply Forall_fmap_ext_1, Forall_forall. intros s _. simpl.
  rewrite lookup_take_lt by lia. done.
Qed.

Lemma card_is_card row cols e :
  App.display_boat_card row cols = Ok e → Trace.is_card e = true.
Proof.
  unfold App.display_boat_card.
  destruct (fold_left _ _ _); simpl; [by intros [= <-] | done].
Qed.

Lemma for_each_cards cols rows :
  ∀ events,
    App.for_each (λ row, App.display_boat_card row cols) rows = Ok events →
    Trace.cards events = length rows.
Proof.
  induction rows as [|row rows IH]; intros events; simpl.
  { by intros [= <-]. }
  destruct (App.display_boat_card row cols) as [e|] eqn:He; [|done]. simpl.
  destruct (App.for_each _ rows) as [es|]; [|done]. simpl.
  intros [= <-]. unfold Trace.cards in *. simpl.
  rewrite (card_is_card _ _ _ He). simpl. by rewrite (IH es).
Qed.

(** The page shows one card for each row of the table it is given. *)
Lemma display_results_cards expr (res : DataFrame) cols events :
  App.display_results expr res cols = Ok events →
  Trace.cards events = Polars.height res.
Proof.
  unfold App.display_results, Polars.is_empty.
  destruct (Nat.eqb_spec (Polars.height res) 0) as [->|_].
  { by intros [= <-]. }
  destruct (App.for_each _ _) as [es|] eqn:Hes; [|done]. simpl.
  intros [= <-]. apply for_each_cards in Hes.
  by rewrite length_rows in Hes.
Qed.

Lemma fields_no_header (row : list (string * pyvalue)) cols :
  ∀ out,
    Filters3.for_each
      (λ col,
         match Filters3.row_get row col with
         | Some value =>
             rmap (λ formatted_value,
                     [Filters3.Field
                        (Str.title (Str.replace_char "_" " " col))
                        formatted_value])
                  (Filters3.cell_text value col)
         | None => Ok []
         end) cols = Ok out →
    Trace.row_headers out = 0.
Proof.
  induction cols as [|col cols IH]; intros out; simpl.
  { by intros [= <-]. }
  destruct (Filters3.for_each _ cols) as [fs|]; simpl.
  2: { destruct (Filters3.row_get row col) as [v|]; simpl; [|done].
       by destruct (Filters3.cell_text v col). }
  specialize (IH fs eq_refl).
  destruct (Filters3.row_get row col) as [v|]; simpl.
  - destruct (Filters3.cell_text v col); simpl; [|done].
    by intros [= <-].
  - by intros [= <-].
Qed.

Lemma boats_headers cols (pairs : list (nat * list (string * pyvalue))) :
  ∀ out,
    Filters3.for_each
      (λ '(i, row),
         rmap (cons (Filters3.RowHeader i))
           (Filters3.for_each
              (λ col,
                 match Filters3.row_get row col with
                 | Some value =>
                     rmap (λ formatted_value,
                             [Filters3.Field
                                (Str.title (Str.replace_char "_" " " col))
                                formatted_value])
                          (Filters3.cell_text value col)
                 | None => Ok []
                 end) cols)) pairs = Ok out →
    Trace.row_headers out = length pairs.
Proof.
  induction pairs as [|[i row] pairs IH]; intros out; simpl.
  { by intros [= <-]. }
  destruct (Filters3.for_each _ cols) as [fs|] eqn:Hfs; simpl; [|done].
  destruct (Filters3.for_each _ pairs) as [rest|]; simpl; [|done].
  intros [= <-]. unfold Trace.row_headers in *. simpl.
  rewrite List.filter_app, length_app.
  apply fields_no_header in Hfs. unfold Trace.row_headers in Hfs.
  rewrite Hfs, (IH rest eq_refl). done.
Qed.

(** The console receives one header for each row of the table when
    there is a column to show, and none when there is no such column. *)
Lemma bullets_headers (df : DataFrame) cols out :
  Filters3.bullets df cols = Ok out →
  Trace.row_headers out
  = match Filters3.get_display_columns df cols with
    | [] => 0
    | _ :: _ => Polars.height df
    end.
Proof.
  unfold Filters3.bullets, Polars.is_empty.
  destruct (Nat.eqb_spec (Polars.height df) 0) as [->|_].
  { intros [= <-]. by destruct (Filters3.get_display_columns df cols). }
  destruct (Filters3.get_display_columns df cols) as [|c cs].
  { by intros [= <-]. }
  destruct (Filters3.for_each _ _) as [body|] eqn:Hbody; simpl; [|done].
  intros [= <-]. apply boats_headers in Hbody.
  rewrite length_zip, length_seq, length_rows, Nat.min_id in Hbody.
  done.
Qed.

End RowCap.

Section Answers.
Context `{Generator} `{Interpreter} `{SetOrder}.
Variables (df : DataFrame) (query df_head_str model : string).

(** An answer with rows comes from an expression that was executed. *)
Lemma run_answer n error expr i new out :
  Trace.run df query df_head_str model n error expr i new out →
  ∀ e res cols,
    out = Some (e, res, cols) →
    res = Polars.empty ∨ App.try_expression df e = Some (Ok (e, res, cols)).
Proof.
  induction 1 as [| | |n error expr i a prompt He Htry|]; intros e res cols;
    try (intros [= <- <- <-]; by left); try done; [|by auto].
  intros [= ->]. right.
  assert (e = Trace.expression_of i model prompt) as ->; [|exact Htry].
  unfold App.try_expression in Htry.
  destruct (App.run_expression df _) as [[full|msg]|]; by simplify_eq/=.
Qed.

Lemma try_expression_answer e res cols :
  App.try_expression df e = Some (Ok (e, res, cols)) →
  ∃ full,
    App.run_expression df e = Some (Ok full)
    ∧ res = Polars.head 20 full
    ∧ cols = App.get_display_columns full (App.extract_cols e).
Proof.
  unfold App.try_expression.
  destruct (App.run_expression df e) as [[full|msg]|]; simpl; try done.
  intros [= <- <-]. by exists full.
Qed.

End Answers.

(** C6 (as the code has it).  For every answer of [query_boats] the table
    delivered has at most 20 rows; when it comes from an executed
    expression its rows are the first 20 rows of what the expression
    produced, in order; and the page shows one card per delivered row.
    filters3.py sets no cap: whenever [bullets] returns (no cell raises
    while it is formatted), it has printed one boat header for every row
    of the table it is given if the table has a column to display, and no
    boat header, only a notice, if it has none. *)
Theorem C6_row_cap `{Generator} `{Interpreter} `{SetOrder}
    (df : DataFrame) (query model : string) (max_retries : Z) (w : World)
    (expr : string) (res : DataFrame) (cols : list string) :
  (App.query_boats df query model max_retries w).2 = Some (expr, res, cols) →
  Polars.height res ≤ 20
  ∧ (res = Polars.empty
     ∨ ∃ full,
         App.run_expression df expr = Some (Ok full)
         ∧ Polars.rows res = take 20 (Polars.rows full))
  ∧ (∀ events,
       App.display_results expr res cols = Ok events →
       Trace.cards events = Polars.height res)
  ∧ (∀ (table : DataFrame) (cols_used : list string) out,
       Filters3.bullets table cols_used = Ok out →
       Trace.row_headers out
       = match Filters3.get_display_columns table cols_used with
         | [] => 0
         | _ :: _ => Polars.height table
         end).
Proof.
  intros Hout.
  assert (Horigin : res = Polars.empty
                    ∨ App.try_expression df expr = Some (Ok (expr, res, cols))).
  { destruct (Polars.is_empty df) eqn:Hrows.
    - rewrite query_boats_no_rows in Hout by done. simpl in Hout.
      injection Hout as <- <- <-. by left.
    - destruct (query_boats_run df query model max_retries w Hrows)
        as (new & _ & Hrun).
      by eapply run_answer. }
  split; [|split; [|split]].
  - destruct Horigin as [->|(full & _ & -> & _)%try_expression_answer].
    + simpl. lia.
    + rewrite height_head. lia.
  - destruct Horigin as [->|(full & Hfull & -> & _)%try_expression_answer].
    + by left.
    + right. exists full. split; [done | apply rows_head].
  - intros events. apply display_results_cards.
  - intros table cols_used out. apply bullets_headers.
Qed.

Lemma C6_row_cap_witness :
  (@App.query_boats (Fixture.always (Ok "df")) Fixture.name_interpreter
     Fixture.dedup_order (Fixture.boats 25) "all boats" "gemini-2.5-flash" 2
     no_effects).2
  = Some ("df", Polars.head 20 (Fixture.boats 25), ["name"; "price"])
  ∧ Polars.height (Fixture.boats 25) = 25
  ∧ Polars.height (Polars.head 20 (Fixture.boats 25)) ≤ 20.
Proof.
  split; [vm_compute; reflexivity|]. split; [reflexivity|].
  eapply (@C6_row_cap (Fixture.always (Ok "df")) Fixture.name_interpreter
            Fixture.dedup_order (Fixture.boats 25) "all boats"
            "gemini-2.5-flash" 2 no_effects "df").
  vm_compute. reflexivity.
Defined.

(** C6 as the specification words it does not hold of filters3.py: the
    expression [df] on a table of 21 boats succeeds and 21 boats are
    printed. *)
Lemma C6_counterexample :
  ∃ out,
    @Filters3.answer (Fixture.always (Ok "df")) Fixture.name_interpreter
      Fixture.dedup_order 0 (Fixture.boats 21) "name price" "all boats"
    = Some out
    ∧ Trace.row_headers out = 21
    ∧ ¬ (Trace.row_headers out ≤ 20).
Proof.
  eexists. split; [vm_compute; reflexivity|].
  split; [vm_compute; reflexivity|]. vm_compute. lia.
Qed.

(** ** Executor: what an expression can name *)

Section Namespaces.
Variable builtins : gmap string pyobj.

Lemma local_ns_dom (df : DataFrame) :
  dom (App.local_ns df) = ({["df"; "pl"]} : gset string).
Proof.
  unfold App.local_ns. rewrite !dom_insert_L, dom_empty_L.
  by rewrite (right_id_L ∅ (∪)).
Qed.

Lemma local_ns_lookup (df : DataFrame) name :
  is_Some (App.local_ns df !! name) ↔ name = "df" ∨ name = "pl".
Proof.
  unfold App.local_ns.
  rewrite !lookup_insert_is_Some', lookup_empty.
  split; [intros [->|[->|[? ?]]] | intros [->| ->]]; try done; auto.
Qed.

Lemma resolve_local_ns (df : DataFrame) name :
  is_Some (Eval.resolve builtins ∅ (App.local_ns df) name)
  ↔ name = "df" ∨ name = "pl" ∨ name = "__builtins__"
    ∨ is_Some (builtins !! name).
Proof.
  unfold Eval.resolve, Eval.prepare_globals. rewrite lookup_empty.
  destruct (App.local_ns df !! name) as [o|] eqn:Hlocal.
  - assert (is_Some (App.local_ns df !! name)) as Hs by by rewrite Hlocal.
    apply local_ns_lookup in Hs. split; [tauto | by eauto].
  - assert (¬ (name = "df" ∨ name = "pl")) as Hn.
    { rewrite <- local_ns_lookup, Hlocal. by intros [? ?]. }
    destruct (decide (name = "__builtins__")) as [->|Hb].
    + rewrite lookup_insert_eq. split; [tauto | by eauto].
    + rewrite lookup_insert_ne, lookup_empty by done. tauto.
Qed.

End Namespaces.

(** C1 (as the code has it).  For every expression the Executor
    evaluates, in both programs, the local namespace binds exactly the two
    names [df] and [pl] and the globals mapping is passed empty; an
    expression can name these two, the key [__builtins__] that [eval] adds
    to the empty globals, and every name of the interpreter's builtins,
    and no other name. *)
Theorem C1_names_an_expression_can_reach
    (builtins : gmap string pyobj) (df : DataFrame) (name : string) :
  dom (App.local_ns df) = ({["df"; "pl"]} : gset string)
  ∧ Filters3.local_ns df = App.local_ns df
  ∧ (is_Some (Eval.resolve builtins ∅ (App.local_ns df) name)
     ↔ name = "df" ∨ name = "pl" ∨ name = "__builtins__"
       ∨ is_Some (builtins !! name)).
Proof.
  split; [apply local_ns_dom|]. split; [reflexivity|].
  apply resolve_local_ns.
Qed.

(** C1 as the specification words it does not hold: in the environment
    of [query_boats] a third name is bound, [__builtins__], and with it
    every builtin resolves, for instance [open] and [__import__] where the
    interpreter has them. *)
Lemma C1_counterexample :
  let builtins : gmap string pyobj :=
    <["open" := ObjValue (VOther "<built-in function open>")]>
      (<["__import__" := ObjValue (VOther "<built-in function __import__>")]>
         ∅) in
  is_Some (Eval.resolve builtins ∅ (App.local_ns (Fixture.boats 1))
             "__builtins__")
  ∧ is_Some (Eval.resolve builtins ∅ (App.local_ns (Fixture.boats 1)) "open")
  ∧ ("__builtins__" ∉ ({["df"; "pl"]} : gset string))
  ∧ ("open" ∉ ({["df"; "pl"]} : gset string)).
Proof.
  cbv zeta. split; [|split].
  - vm_compute. eauto.
  - vm_compute. eauto.
  - split; by apply (bool_decide_unpack _); vm_compute.
Qed.

(* ===================================================================== *)
(** * Part III: further properties of the code                            *)
(* ===================================================================== *)

(** ** ColumnResolver: shape of the display list *)

Section DisplayList.
Implicit Types l seen qs columns : list string.

Lemma keep_first_elem x l :
  ∀ seen, x ∈ Spec.keep_first seen l ↔ x ∈ l ∧ x ∉ seen.
Proof.
  induction l as [|y l IH]; intros seen; simpl.
  { split; [by intros ?%elem_of_nil | by intros [?%elem_of_nil _]]. }
  destruct (decide (y ∈ seen)) as [Hy|Hy].
  - rewrite (bool_decide_eq_true_2 _ Hy), IH, elem_of_cons.
    split; [tauto|]. intros [[->|?] ?]; [done | tauto].
  - rewrite (bool_decide_eq_false_2 _ Hy), !elem_of_cons, IH, not_elem_of_app,
      list_elem_of_singleton.
    split.
    + intros [->|(? & ? & ?)]; tauto.
    + intros [[->|?] ?]; [by left|].
      destruct (decide (x = y)) as [->|]; [by left | right; tauto].
Qed.

Lemma keep_first_NoDup l : ∀ seen, NoDup (Spec.keep_first seen l).
Proof.
  induction l as [|y l IH]; intros seen; simpl; [constructor|].
  destruct (bool_decide (y ∈ seen)); [apply IH|].
  apply NoDup_cons. split; [|apply IH].
  rewrite keep_first_elem, not_elem_of_app, list_elem_of_singleton. tauto.
Qed.

Lemma keep_first_skip l1 l2 seen :
  (∀ x, x ∈ l1 → x ∈ seen) →
  Spec.keep_first seen (l1 ++ l2) = Spec.keep_first seen l2.
Proof.
  induction l1 as [|y l1 IH]; intros Hin; simpl; [done|].
  rewrite bool_decide_eq_true_2 by (apply Hin; left).
  apply IH. intros x Hx. apply Hin. by right.
Qed.

Lemma keep_first_id l :
  ∀ seen, NoDup l → (∀ x, x ∈ l → x ∉ seen) → Spec.keep_first seen l = l.
Proof.
  induction l as [|y l IH]; intros seen Hnd Hout; simpl; [done|].
  apply NoDup_cons in Hnd as [Hy Hnd].
  rewrite bool_decide_eq_false_2 by (apply Hout; left). f_equal.
  apply IH; [done|]. intros x Hx.
  rewrite not_elem_of_app, list_elem_of_singleton. split.
  - apply Hout. by right.
  - intros ->. done.
Qed.

Lemma filter_all_in (P : string → Prop) `{!∀ x, Decision (P x)} l :
  (∀ x, x ∈ l → P x) → filter P l = l.
Proof.
  induction l as [|y l IH]; intros Hall; [done|].
  rewrite filter_cons_True by (apply Hall; left). f_equal.
  apply IH. intros x Hx. apply Hall. by right.
Qed.

(** The alias columns of a list of column names. *)
Definition alias_columns columns : list string :=
  option_list (App.first_present App.NAME_COLS columns)
  ++ option_list (App.first_present App.PRICE_COLS columns)
  ++ option_list (App.first_present App.YEAR_COLS columns).

Lemma found_alias_present aliases columns c :
  c ∈ option_list (App.first_present aliases columns) → c ∈ columns.
Proof.
  unfold App.first_present.
  destruct (List.find _ aliases) as [n|] eqn:Hn; simpl.
  - intros ->%list_elem_of_singleton. apply find_some in Hn as [_ Hn].
    by apply bool_decide_eq_true in Hn.
  - by intros ?%elem_of_nil.
Qed.

Lemma option_list_NoDup (x : option string) : NoDup (option_list x).
Proof. destruct x; [apply NoDup_singleton | constructor]. Qed.

Lemma alias_columns_NoDup columns : NoDup (alias_columns columns).
Proof.
  unfold alias_columns. apply NoDup_app. split; [apply option_list_NoDup|].
  split.
  - intros c Hn%found_alias_elem [Hp%found_alias_elem|Hy%found_alias_elem]
      %elem_of_app.
    + by apply (price_not_name c).
    + by apply (year_not_name c).
  - apply NoDup_app. split; [apply option_list_NoDup|].
    split; [|apply option_list_NoDup].
    intros c Hp%found_alias_elem Hy%found_alias_elem.
    by apply (year_not_price c).
Qed.

Lemma alias_columns_present columns c : c ∈ alias_columns columns → c ∈ columns.
Proof.
  unfold alias_columns. rewrite !elem_of_app.
  intros [?|[?|?]]; by eapply found_alias_present.
Qed.

Lemma display_columns_split (df : DataFrame) qs :
  App.get_display_columns df qs
  = alias_columns (Polars.columns df)
    ++ Spec.keep_first (alias_columns (Polars.columns df))
         (filter (λ c, c ∈ Polars.columns df) qs).
Proof. apply get_display_columns_unfold. Qed.

Lemma display_columns_elem (df : DataFrame) qs c :
  c ∈ App.get_display_columns df qs
  ↔ c ∈ alias_columns (Polars.columns df) ∨ (c ∈ qs ∧ c ∈ Polars.columns df).
Proof.
  rewrite display_columns_split, elem_of_app, keep_first_elem,
    list_elem_of_filter.
  destruct (decide (c ∈ alias_columns (Polars.columns df))); tauto.
Qed.

End DisplayList.

(** X1.  The display list of [get_display_columns] never repeats a column
    and names only columns of the table; a table without columns gets the
    empty list, whatever the query columns are. *)
Theorem display_columns_distinct_and_present
    (df : DataFrame) (query_cols : list string) :
  NoDup (App.get_display_columns df query_cols)
  ∧ (∀ c, c ∈ App.get_display_columns df query_cols → c ∈ Polars.columns df)
  ∧ (Polars.columns df = [] → App.get_display_columns df query_cols = []).
Proof.
  assert (Hin : ∀ c, c ∈ App.get_display_columns df query_cols
                     → c ∈ Polars.columns df).
  { intros c [?%alias_columns_present|[_ ?]]%display_columns_elem; done. }
  split; [|split; [exact Hin|]].
  - rewrite display_columns_split. apply NoDup_app.
    split; [apply alias_columns_NoDup|]. split; [|apply keep_first_NoDup].
    intros c Hc [_ Hn]%keep_first_elem. done.
  - intros Hnone. destruct (App.get_display_columns df query_cols) as [|c l];
      [done|].
    specialize (Hin c ltac:(left)). rewrite Hnone in Hin.
    by apply elem_of_nil in Hin.
Qed.

(** X2.  [get_display_columns] is idempotent: resolving the display list
    of a table again, against the same table, returns it unchanged. *)
Theorem display_columns_idempotent (df : DataFrame) (query_cols : list string) :
  App.get_display_columns df (App.get_display_columns df query_cols)
  = App.get_display_columns df query_cols.
Proof.
  destruct (display_columns_distinct_and_present df query_cols)
    as (Hnd & Hin & _).
  rewrite (display_columns_split df (App.get_display_columns df query_cols)).
  rewrite (display_columns_split df query_cols) in *.
  set (fixed := alias_columns (Polars.columns df)) in *.
  set (rest := Spec.keep_first fixed _) in *.
  f_equal.
  rewrite filter_all_in by done.
  rewrite keep_first_skip by done.
  apply NoDup_app in Hnd as (_ & Hdisj & Hrest).
  apply keep_first_id; [done|]. intros x Hx Hf. by apply (Hdisj x).
Qed.

Lemma display_columns_distinct_and_present_witness :
  Polars.columns [] = []
  ∧ App.get_display_columns [] ["price"; "length"] = [].
Proof.
  split; [reflexivity|].
  by apply (display_columns_distinct_and_present [] ["price"; "length"]).
Defined.

(** X3.  The alias columns come first whatever the query columns are, and
    the display list depends on the query columns only as a set: two
    lists with the same members give the same columns, up to the order of
    the columns after the aliases. *)
Theorem display_columns_order_independent
    (df : DataFrame) (query_cols query_cols' : list string) :
  (∀ c, c ∈ query_cols ↔ c ∈ query_cols') →
  App.get_display_columns df [] `prefix_of` App.get_display_columns df query_cols
  ∧ App.get_display_columns df [] `prefix_of`
      App.get_display_columns df query_cols'
  ∧ App.get_display_columns df query_cols
    ≡ₚ App.get_display_columns df query_cols'.
Proof.
  intros Hsame.
  assert (Hpre : ∀ qs, App.get_display_columns df []
                       `prefix_of` App.get_display_columns df qs).
  { intros qs. rewrite !display_columns_split. simpl.
    rewrite app_nil_r. by eexists. }
  split; [apply Hpre|]. split; [apply Hpre|].
  apply NoDup_Permutation;
    try apply display_columns_distinct_and_present.
  intros c. rewrite !display_columns_elem, Hsame. done.
Qed.

Lemma display_columns_order_independent_witness :
  (∀ c, c ∈ ["length"; "year"; "beam"] ↔ c ∈ ["beam"; "length"; "beam"; "year"])
  ∧ App.get_display_columns
      [mkSeries "beam" []; mkSeries "year" []; mkSeries "length" []]
      ["length"; "year"; "beam"]
    ≡ₚ App.get_display_columns
         [mkSeries "beam" []; mkSeries "year" []; mkSeries "length" []]
         ["beam"; "length"; "beam"; "year"].
Proof.
  assert (H : ∀ c, c ∈ ["length"; "year"; "beam"]
                   ↔ c ∈ ["beam"; "length"; "beam"; "year"]).
  { intros c. rewrite !elem_of_cons. split; intros; tauto. }
  split; [exact H|].
  by apply (display_columns_order_independent
              [mkSeries "beam" []; mkSeries "year" []; mkSeries "length" []]
              ["length"; "year"; "beam"] ["beam"; "length"; "beam"; "year"]).
Defined.

(** ** RetryController: what a run shows and returns *)

Section RunFacts.
Context `{Generator} `{Interpreter} `{SetOrder}.
Variables (df : DataFrame) (query df_head_str model : string).

Import Trace.

(** A successful execution is the end of the run. *)
Lemma run_success n error expr i new out :
  Trace.run df query df_head_str model n error expr i new out →
  ∀ k mp a,
    new !! k = Some mp →
    expression_of (i + k) mp.1 mp.2 ≠ "" →
    App.try_expression df (expression_of (i + k) mp.1 mp.2) = Some (Ok a) →
    length new = S k ∧ out = Some a.
Proof.
  induction 1 as [| | | |n error expr i msg new out prompt He Htry Hrun IH];
    intros k mp a' Hk Hne Hok; try done;
    destruct k as [|k]; simpl in *; try done;
    try (injection Hk as <-; simpl in Hne, Hok;
         rewrite Nat.add_0_r in Hne, Hok; split; congruence).
  replace (i + S k) with (S i + k) in Hne, Hok by lia.
  destruct (IH _ _ _ Hk Hne Hok) as [-> ->]. done.
Qed.

Lemma expression_of_nonempty n prompt :
  expression_of n model prompt ≠ "" →
  ∃ text, generate_content n model prompt = Ok text
          ∧ expression_of n model prompt = App.clean_reply text.
Proof.
  unfold expression_of. destruct (generate_content n model prompt); [|done].
  by eauto.
Qed.

Lemma get_polars_expression_quiet error w text :
  generate_content (length (calls w)) model
    (App.build_prompt query df_head_str error) = Ok text →
  App.get_polars_expression query df_head_str model error w
  = (mkWorld (calls w ++ [(model, App.build_prompt query df_head_str error)])
             (shown w),
     Some (App.clean_reply text)).
Proof.
  intros Hreply.
  unfold App.get_polars_expression, request, bind. simpl.
  by rewrite Hreply.
Qed.

(** When every attempt fails, the run shows the expression of the last
    request and the error of its execution, and nothing else. *)
Lemma attempts_all_fail n :
  ∀ error expr w,
    (∀ k prompt, k < n →
       expression_of (length (calls w) + k) model prompt ≠ ""
       ∧ ∃ msg,
           App.try_expression df
             (expression_of (length (calls w) + k) model prompt)
           = Some (Raise msg)) →
    ∃ e err,
      (App.attempts n df query df_head_str model error expr w).2
      = Some (e, Polars.empty, [])
      ∧ shown (App.attempts n df query df_head_str model error expr w).1
        = shown w
          ++ [UiCode "🔍 Generated Query" e;
              UiError ("Error executing query: " +:+ App.error_text err)]
      ∧ length
          (calls (App.attempts n df query df_head_str model error expr w).1)
        = length (calls w) + n
      ∧ (n = 0 → e = expr ∧ err = error)
      ∧ (0 < n →
         ∃ msg prompt,
           err = Some msg
           ∧ calls (App.attempts n df query df_head_str model error expr w).1
               !! (length (calls w) + n - 1)
             = Some (model, prompt)
           ∧ e = expression_of (length (calls w) + n - 1) model prompt
           ∧ App.try_expression df e = Some (Raise msg)).
Proof.
  induction n as [|n IH]; intros error expr w Hfail.
  - exists expr, error. simpl. rewrite <- (assoc_L (++)). simpl.
    split; [done|]. split; [done|]. split; [lia|]. split; [done | lia].
  - cbn [App.attempts]. unfold bind.
    set (prompt := App.build_prompt query df_head_str error).
    destruct (Hfail 0 prompt ltac:(lia)) as [Hne [msg Hmsg]].
    rewrite Nat.add_0_r in Hne, Hmsg.
    destruct (expression_of_nonempty _ _ Hne) as (text & Hreply & Hexpr).
    rewrite (get_polars_expression_quiet error w text Hreply).
    rewrite <- Hexpr.
    destruct (String.eqb_spec (expression_of (length (calls w)) model prompt) "")
      as [?|_]; [done|].
    rewrite Hmsg.
    set (e0 := expression_of (length (calls w)) model prompt) in *.
    set (w' := mkWorld (calls w ++ [(model, prompt)]) (shown w)).
    assert (Hlen : length (calls w') = length (calls w) + 1).
    { unfold w'. simpl. rewrite length_app. simpl. lia. }
    destruct (IH (Some msg) e0 w')
      as (e & err & Hout & Hshown & Hcalls & Hzero & Hpos).
    { intros k p Hk. rewrite Hlen.
      replace (length (calls w) + 1 + k) with (length (calls w) + S k) by lia.
      apply Hfail. lia. }
    exists e, err. split; [exact Hout|]. split; [exact Hshown|].
    split; [etransitivity; [exact Hcalls|]; rewrite Hlen; lia|].
    split; [lia|]. intros _.
    destruct n as [|n].
    + destruct Hzero as [-> ->]; [done|]. exists msg, prompt.
      split; [done|]. split; [|split; [|done]].
      * simpl. replace (length (calls w) + 1 - 1) with (length (calls w)) by lia.
        by rewrite list_lookup_middle.
      * unfold e0. f_equal. lia.
    + destruct Hpos as (msg' & prompt' & -> & Hlast & -> & Htry); [lia|].
      rewrite Hlen in Hlast.
      replace (length (calls w) + 1 + S n - 1)
        with (length (calls w) + S (S n) - 1) in Hlast by lia.
      exists msg', prompt'. split; [done|]. split; [exact Hlast|].
      split; [|exact Htry].
      f_equal. lia.
Qed.

(** An answer with columns comes from an expression that was executed. *)
Lemma run_answer_columns n error expr i new out :
  Trace.run df query df_head_str model n error expr i new out →
  ∀ e res cols,
    out = Some (e, res, cols) →
    cols = [] ∨ App.try_expression df e = Some (Ok (e, res, cols)).
Proof.
  induction 1 as [| | |n error expr i a prompt He Htry|]; intros e res cols;
    try (intros [= <- <- <-]; by left); try done; [|by auto].
  intros [= ->]. right.
  assert (e = Trace.expression_of i model prompt) as ->; [|exact Htry].
  unfold App.try_expression in Htry.
  destruct (App.run_expression df _) as [[full|msg]|]; by simplify_eq/=.
Qed.

Lemma columns_head n (table : DataFrame) :
  Polars.columns (Polars.head n table) = Polars.columns table.
Proof.
  unfold Polars.columns, Polars.head. rewrite <- list_fmap_compose.
  by apply list_fmap_ext.
Qed.

End RunFacts.

(** X4.  The first attempt whose expression executes ends the run: no
    further request is sent and the answer of [query_boats] is the answer
    of that attempt. *)
Theorem first_success_is_final `{Generator} `{Interpreter} `{SetOrder}
    (df : DataFrame) (query model : string) (max_retries : Z) (w : World)
    (k : nat) (request : string * string)
    (answer : string * DataFrame * list string) :
  let r := App.query_boats df query model max_retries w in
  let expr :=
    Trace.expression_of (length (calls w) + k) request.1 request.2 in
  Trace.new_calls w r.1 !! k = Some request →
  expr ≠ "" →
  App.try_expression df expr = Some (Ok answer) →
  length (Trace.new_calls w r.1) = S k ∧ r.2 = Some answer.
Proof.
  cbv zeta. intros Hk Hne Hok.
  destruct (Polars.is_empty df) eqn:Hrows.
  { rewrite query_boats_no_rows in Hk by done.
    unfold Trace.new_calls in Hk. simpl in Hk. by rewrite drop_all in Hk. }
  destruct (query_boats_run df query model max_retries w Hrows)
    as (new & Hcalls & Hrun).
  rewrite (new_calls_app _ _ _ Hcalls) in *.
  by eapply run_success.
Qed.

Lemma first_success_is_final_witness :
  let r := @App.query_boats
             (Fixture.scripted [Ok "df.filter("; Ok "df"; Ok "pl"])
             Fixture.name_interpreter Fixture.dedup_order (Fixture.boats 3)
             "cheap boats" "gemini-2.5-flash" 2 no_effects in
  (∃ request, Trace.new_calls no_effects r.1 !! 1 = Some request)
  ∧ length (Trace.new_calls no_effects r.1) = 2
  ∧ r.2 = Some ("df", Fixture.boats 3, ["name"; "price"]).
Proof.
  cbv zeta. split; [eexists; vm_compute; reflexivity|].
  eapply (@first_success_is_final
            (Fixture.scripted [Ok "df.filter("; Ok "df"; Ok "pl"])
            Fixture.name_interpreter Fixture.dedup_order (Fixture.boats 3)
            "cheap boats" "gemini-2.5-flash" 2 no_effects 1).
  - vm_compute. reflexivity.
  - discriminate.
  - vm_compute. reflexivity.
Defined.

(** X5.  The display list [query_boats] returns never repeats a column
    and names only columns of the table it returns with it. *)
Theorem answer_columns_are_table_columns
    `{Generator} `{Interpreter} `{SetOrder}
    (df : DataFrame) (query model : string) (max_retries : Z) (w : World)
    (expr : string) (res : DataFrame) (cols : list string) :
  (App.query_boats df query model max_retries w).2 = Some (expr, res, cols) →
  NoDup cols ∧ ∀ c, c ∈ cols → c ∈ Polars.columns res.
Proof.
  intros Hout.
  assert (Horigin : cols = []
                    ∨ App.try_expression df expr = Some (Ok (expr, res, cols))).
  { destruct (Polars.is_empty df) eqn:Hrows.
    - rewrite query_boats_no_rows in Hout by done. simpl in Hout.
      injection Hout as <- <- <-. by left.
    - destruct (query_boats_run df query model max_retries w Hrows)
        as (new & _ & Hrun).
      by eapply run_answer_columns. }
  destruct Horigin as [->|(full & _ & -> & ->)%try_expression_answer].
  - split; [constructor | by intros c ?%elem_of_nil].
  - rewrite columns_head.
    split; by apply display_columns_distinct_and_present.
Qed.

Lemma answer_columns_are_table_columns_witness :
  (@App.query_boats (Fixture.always (Ok "df")) Fixture.name_interpreter
     Fixture.dedup_order (Fixture.boats 25) "all boats" "gemini-2.5-flash" 2
     no_effects).2
  = Some ("df", Polars.head 20 (Fixture.boats 25), ["name"; "price"])
  ∧ NoDup ["name"; "price"].
Proof.
  split; [vm_compute; reflexivity|].
  eapply (@answer_columns_are_table_columns (Fixture.always (Ok "df"))
            Fixture.name_interpreter Fixture.dedup_order (Fixture.boats 25)
            "all boats" "gemini-2.5-flash" 2 no_effects "df").
  vm_compute. reflexivity.
Defined.

(** X6.  When retries are allowed and every generation is a non-empty
    expression whose execution fails, [query_boats] sends exactly
    [max_retries + 1] requests and returns the expression of the last of
    them with no rows, and the page receives exactly two things: that
    last expression and the error message of its execution. *)
Theorem exhausted_failure_is_shown `{Generator} `{Interpreter} `{SetOrder}
    (df : DataFrame) (query model : string) (max_retries : Z) (w : World) :
  (0 ≤ max_retries)%Z →
  Polars.is_empty df = false →
  (∀ k prompt,
     Trace.expression_of (length (calls w) + k) model prompt ≠ ""
     ∧ ∃ msg,
         App.try_expression df
           (Trace.expression_of (length (calls w) + k) model prompt)
         = Some (Raise msg)) →
  let r := App.query_boats df query model max_retries w in
  let last := length (calls w) + Z.to_nat max_retries in
  ∃ prompt msg,
    length (calls r.1) = S last
    ∧ calls r.1 !! last = Some (model, prompt)
    ∧ App.try_expression df (Trace.expression_of last model prompt)
      = Some (Raise msg)
    ∧ r.2 = Some (Trace.expression_of last model prompt, Polars.empty, [])
    ∧ shown r.1
      = shown w
        ++ [UiCode "🔍 Generated Query"
              (Trace.expression_of last model prompt);
            UiError ("Error executing query: " +:+ msg)].
Proof.
  intros Hmax Hrows Hfail. cbv zeta. unfold App.query_boats. rewrite Hrows.
  destruct (attempts_all_fail df query
              (to_pandas_string (Polars.head 5 df)) model
              (Z.to_nat (max_retries + 1)) None "" w)
    as (e & err & Hout & Hshown & Hcalls & _ & Hpos).
  { intros k prompt _. apply Hfail. }
  destruct Hpos as (msg & prompt & -> & Hlast & -> & Htry); [lia|].
  replace (length (calls w) + Z.to_nat (max_retries + 1) - 1)
    with (length (calls w) + Z.to_nat max_retries) in * by lia.
  exists prompt, msg. split; [rewrite Hcalls; lia|]. done.
Qed.

Lemma exhausted_failure_is_shown_witness :
  let r := @App.query_boats (Fixture.always (Ok "speed"))
             Fixture.name_interpreter Fixture.dedup_order
             (Fixture.boats 3) "fast boats" "gemini-2.5-flash" 2
             no_effects in
  (0 ≤ 2)%Z
  ∧ ∃ prompt msg,
      length (calls r.1) = 3
      ∧ calls r.1 !! 2 = Some ("gemini-2.5-flash", prompt)
      ∧ r.2 = Some ("speed", Polars.empty, [])
      ∧ shown r.1
        = [UiCode "🔍 Generated Query" "speed";
           UiError ("Error executing query: " +:+ msg)].
Proof.
  cbv zeta. split; [lia|].
  destruct (@exhausted_failure_is_shown (Fixture.always (Ok "speed"))
              Fixture.name_interpreter Fixture.dedup_order
              (Fixture.boats 3) "fast boats" "gemini-2.5-flash" 2
              no_effects ltac:(lia) eq_refl)
    as (prompt & msg & Hlen & Hlast & Htry & Hout & Hshown).
  - intros k prompt. split; [discriminate|]. eexists. vm_compute. reflexivity.
  - exists prompt, msg.
    split; [exact Hlen|]. split; [exact Hlast|].
    split; [exact Hout | exact Hshown].
Defined.

(** ** Further functions of the programs *)

(** *** api.py *)

Module Api.

(** What the endpoint answers: the JSON body, an [HTTPException], or the
    server error an uncaught exception becomes. *)
Inductive response : Type :=
| Ids (ids : list pyvalue)
| HTTPException (status_code : Z) (detail : string)
| InternalError (msg : string).

(** [results.with_row_count(name)]: a counter column in front. *)
Definition with_row_count (name : string) (df : DataFrame) : DataFrame :=
  mkSeries name ((λ i, VInt (Z.of_nat i)) <$> seq 0 (Polars.height df)) :: df.

(** [results[name].to_list()]; a missing column raises. *)
Definition column_to_list (name : string) (df : DataFrame)
    : result (list pyvalue) :=
  match List.find (λ s, String.eqb (s_name s) name) df with
  | Some s => Ok (s_values s)
  | None => Raise name
  end.

(** [q or (payload.query if payload else "")] *)
Definition query_of (q payload : option string) : string :=
  if App.truthy q then default "" q else default "" payload.

(** The part of [boats] after [query_boats] has answered. *)
Definition ids_of (results : DataFrame) : response :=
  if Polars.is_empty results then Ids []
  else
    let results :=
      if bool_decide ("id" ∈ Polars.columns results) then results
      else with_row_count "id" results in
    match column_to_list "id" results with
    | Ok ids => Ids ids
    | Raise e => InternalError e
    end.

(** The endpoint [boats], on the dataset [df] loaded at start. *)
Definition boats `{Generator} `{Interpreter} `{SetOrder}
    (df : DataFrame) (q payload : option string) : M response :=
  let query := query_of q payload in
  if String.eqb query "" then ret (HTTPException 400 "Query is required")
  else
    let* answer := App.query_boats df query "gemini-2.5-flash" 2 in
    ret (ids_of answer.1.2).

End Api.

(** *** app.py: the page *)

Module AppUi.

(** [re.sub(pattern, repl, text)] for a pattern that matches no empty
    text; [repl] builds the replacement from the match. *)
Fixpoint sub_go (r : Re.regex) (repl : Re.rmatch → string)
    (b : option ascii) (n skip : nat) (s : string) : string :=
  match s with
  | String c s' =>
      match skip with
      | S skip' => sub_go r repl (Some c) (S n) skip' s'
      | O =>
          match Re.match_at r (Re.Cursor b n s None) with
          | Some m =>
              repl m
              +:+ (if (Re.m_end m =? Re.m_start m)%nat then String c ""
                   else "")
              +:+ sub_go r repl (Some c) (S n)
                    (Re.m_end m - Re.m_start m - 1) s'
          | None => String c (sub_go r repl (Some c) (S n) 0 s')
          end
      end
  | "" => ""
  end.

Definition sub (r : Re.regex) (repl : Re.rmatch → string) (s : string)
    : string :=
  sub_go r repl None 0 0 s.

(** The pattern of [highlight_numbers_html]: the number pattern inside
    group 1. *)
Definition highlight_pattern : Re.regex := Re.Grp App.number_pattern.

(** The replacement template: the text of group 1 between the two mark
    tags. *)
Definition mark (m : Re.rmatch) : string :=
  "<mark>" +:+ default "" (Re.m_group1 m) +:+ "</mark>".

Definition highlight_numbers_html (text : string) : string :=
  sub highlight_pattern mark text.

(** [st.session_state], for its text entries. *)
Definition apply_pending_query_update (session_state : gmap string string)
    : gmap string string :=
  match session_state !! "updated_query" with
  | Some updated =>
      <["query_input" := updated]> (delete "updated_query" session_state)
  | None => session_state
  end.

End AppUi.

(** *** What a pattern matches, without the search order *)

Module ReSem.
Import Re.

(** Zero or more characters of a class. *)
Inductive many (p : ascii → bool) : cursor → cursor → Prop :=
| many_stop c : many p c c
| many_step b n ch s g c' :
    p ch = true →
    many p (Cursor (Some ch) (S n) s g) c' →
    many p (Cursor b n (String ch s) g) c'.

(** [matches r c c']: the pattern [r] matches the text between the
    cursors [c] and [c']. *)
Inductive matches : regex → cursor → cursor → Prop :=
| m_eps c : matches Eps c c
| m_chr ch b n s g :
    matches (Chr ch) (Cursor b n (String ch s) g) (Cursor (Some ch) (S n) s g)
| m_cls p ch b n s g :
    p ch = true →
    matches (Cls p) (Cursor b n (String ch s) g) (Cursor (Some ch) (S n) s g)
| m_rep1 p ch b n s g c' :
    p ch = true →
    many p (Cursor (Some ch) (S n) s g) c' →
    matches (Rep1 p) (Cursor b n (String ch s) g) c'
| m_opt_taken r c c' : matches r c c' → matches (Opt r) c c'
| m_opt_skipped r c : matches (Opt r) c c
| m_cat r1 r2 c c1 c2 :
    matches r1 c c1 → matches r2 c1 c2 → matches (Cat r1 r2) c c2
| m_bnd c :
    xorb (word_before c) (word_here c) = true → matches Bnd c c
| m_grp r c c' :
    matches r c c' →
    matches (Grp r) c
      (Cursor (before c') (pos c') (rest c')
         (Some (Str.take (pos c' - pos c) (rest c)))).

(** All characters of a text are in a class. *)
Fixpoint all (p : ascii → bool) (s : string) : bool :=
  match s with
  | String c s' => p c && all p s'
  | "" => true
  end.

(** The last character of [b] followed by [s]. *)
Fixpoint last_of (b : option ascii) (s : string) : option ascii :=
  match s with
  | String c s' => last_of (Some c) s'
  | "" => b
  end.

Definition first_of (s : string) : option ascii :=
  match s with String c _ => Some c | "" => None end.

Definition is_word_opt (c : option ascii) : bool :=
  match c with Some c => Str.is_word c | None => false end.

(** The literals the number pattern can match: digits, or digits, one
    point or comma, and digits. *)
Definition number_literal (lit : string) : Prop :=
  ∃ whole,
    whole ≠ "" ∧ all Str.is_digit whole = true
    ∧ (lit = whole
       ∨ ∃ sep frac,
           is_sep sep = true ∧ frac ≠ "" ∧ all Str.is_digit frac = true
           ∧ lit = whole +:+ String sep frac).

(** The matches lie one after the other in the text [s] that starts at
    offset [n]. *)
Inductive segmented : nat → string → list rmatch → Prop :=
| seg_nil n s : segmented n s []
| seg_cons n s gap m tl ms :
    s = gap +:+ m_text m +:+ tl →
    m_start m = n + String.length gap →
    m_end m = m_start m + String.length (m_text m) →
    segmented (m_end m) tl ms →
    segmented n s (m :: ms).

(** One pass from the left over the text [s] that starts at offset [n]:
    each match is replaced by the value at its place. *)
Fixpoint substitute (n : nat) (s : string) (ms : list rmatch)
    (vals : list string) : string :=
  match ms, vals with
  | m :: ms', v :: vals' =>
      Str.take (m_start m - n) s +:+ v
        +:+ substitute (m_end m) (Str.drop (m_end m - n) s) ms' vals'
  | _, _ => s
  end.

End ReSem.

(** ** api.py: the endpoint *)

Section Endpoint.
Context `{Generator} `{Interpreter} `{SetOrder}.
Variable df : DataFrame.

(** With a query, the endpoint is one call of [query_boats] with the
    default model and two retries, followed by [ids_of]. *)
Lemma boats_run q payload w :
  Api.query_of q payload ≠ "" →
  Api.boats df q payload w
  = ((App.query_boats df (Api.query_of q payload) "gemini-2.5-flash" 2 w).1,
     (λ answer, Api.ids_of answer.1.2)
       <$> (App.query_boats df (Api.query_of q payload)
              "gemini-2.5-flash" 2 w).2).
Proof.
  intros Hq. unfold Api.boats.
  destruct (String.eqb_spec (Api.query_of q payload) "") as [?|_]; [done|].
  unfold bind, ret.
  by destruct (App.query_boats _ _ _ _ w) as [w' [answer|]].
Qed.

(** Every column of a delivered table has at most 20 values. *)
Lemma delivered_columns_short query model max_retries w expr res cols :
  (App.query_boats df query model max_retries w).2 = Some (expr, res, cols) →
  Forall (λ s, length (s_values s) ≤ 20) res.
Proof.
  intros Hout.
  assert (Horigin : res = Polars.empty
                    ∨ App.try_expression df expr = Some (Ok (expr, res, cols))).
  { destruct (Polars.is_empty df) eqn:Hrows.
    - rewrite query_boats_no_rows in Hout by done. simpl in Hout.
      injection Hout as <- <- <-. by left.
    - destruct (query_boats_run df query model max_retries w Hrows)
        as (new & _ & Hrun).
      by eapply run_answer. }
  destruct Horigin as [->|(full & _ & -> & _)%try_expression_answer].
  - constructor.
  - unfold Polars.head. apply Forall_fmap, Forall_forall. intros s _. simpl.
    rewrite length_take. lia.
Qed.

Lemma find_named name (table : DataFrame) :
  name ∈ Polars.columns table →
  ∃ s, List.find (λ s, String.eqb (s_name s) name) table = Some s
       ∧ s ∈ table.
Proof.
  induction table as [|s table IH]; simpl.
  { by intros ?%elem_of_nil. }
  destruct (String.eqb_spec (s_name s) name) as [Heq|Hne].
  - intros _. exists s. split; [done | left].
  - intros [?|Hin]%elem_of_cons; [congruence|].
    destruct (IH Hin) as (s' & Hfind & Hs'). exists s'.
    split; [done | by right].
Qed.

Lemma ids_of_short (res : DataFrame) :
  Forall (λ s, length (s_values s) ≤ 20) res →
  (∀ msg, Api.ids_of res ≠ Api.InternalError msg)
  ∧ (∀ ids, Api.ids_of res = Api.Ids ids → length ids ≤ 20).
Proof.
  intros Hshort. unfold Api.ids_of.
  destruct (Polars.is_empty res) eqn:Hempty.
  { split; [done|]. intros ids [= <-]. simpl. lia. }
  destruct (decide ("id" ∈ Polars.columns res)) as [Hid|Hid].
  - rewrite (bool_decide_eq_true_2 _ Hid). unfold Api.column_to_list.
    destruct (find_named "id" res Hid) as (s & -> & Hs).
    split; [done|]. intros ids [= <-].
    by apply (proj1 (Forall_forall _ _) Hshort s).
  - rewrite (bool_decide_eq_false_2 _ Hid). simpl.
    split; [done|]. intros ids [= <-].
    rewrite length_fmap, length_seq.
    destruct res as [|s res]; simpl; [lia|].
    apply Forall_cons in Hshort as [Hs _]. done.
Qed.

End Endpoint.

(** X7.  A request without query text, neither in the [query] parameter
    nor in the payload, is refused with status 400, and the generator is
    not asked: nothing is sent or shown. *)
Theorem boats_requires_a_query `{Generator} `{Interpreter} `{SetOrder}
    (df : DataFrame) (q payload : option string) (w : World) :
  q = None ∨ q = Some "" →
  payload = None ∨ payload = Some "" →
  Api.boats df q payload w
  = (w, Some (Api.HTTPException 400 "Query is required")).
Proof. by intros [-> | ->] [-> | ->]. Qed.

Lemma boats_requires_a_query_witness :
  (Some "" = None ∨ Some "" = Some "")
  ∧ @Api.boats (Fixture.always (Ok "df")) Fixture.name_interpreter
      Fixture.dedup_order (Fixture.boats 3) (Some "") None no_effects
    = (no_effects, Some (Api.HTTPException 400 "Query is required")).
Proof.
  split; [by right|].
  apply (@boats_requires_a_query (Fixture.always (Ok "df"))
           Fixture.name_interpreter Fixture.dedup_order (Fixture.boats 3));
    [by right | by left].
Defined.

(** X8.  Whatever the query, the endpoint never fails on the [id] column,
    and a list of ids it returns has at most 20 entries. *)
Theorem boats_returns_at_most_20_ids `{Generator} `{Interpreter} `{SetOrder}
    (df : DataFrame) (q payload : option string) (w : World)
    (resp : Api.response) :
  (Api.boats df q payload w).2 = Some resp →
  (∀ msg, resp ≠ Api.InternalError msg)
  ∧ (∀ ids, resp = Api.Ids ids → length ids ≤ 20).
Proof.
  destruct (String.eqb_spec (Api.query_of q payload) "") as [Hq|Hq].
  - unfold Api.boats. rewrite Hq. simpl. by intros [= <-].
  - rewrite (boats_run df q payload w Hq). simpl.
    destruct (App.query_boats df _ _ _ w).2 as [[[expr res] cols]|] eqn:Hout;
      [|done].
    simpl. intros [= <-]. apply ids_of_short.
    by eapply delivered_columns_short.
Qed.

Lemma boats_returns_at_most_20_ids_witness :
  ∃ ids,
    (@Api.boats (Fixture.always (Ok "df")) Fixture.name_interpreter
       Fixture.dedup_order (Fixture.boats 25) (Some "all boats") None
       no_effects).2 = Some (Api.Ids ids)
    ∧ length ids ≤ 20.
Proof.
  eexists. split; [vm_compute; reflexivity|].
  eapply (@boats_returns_at_most_20_ids (Fixture.always (Ok "df"))
            Fixture.name_interpreter Fixture.dedup_order (Fixture.boats 25)
            (Some "all boats") None no_effects); [|reflexivity].
  vm_compute. reflexivity.
Defined.

(** X9.  When the table [query_boats] delivers has rows and no [id]
    column, the ids returned are the row positions 0, 1, ... in that
    delivered table, not positions in the dataset. *)
Theorem boats_ids_are_positions_in_the_answer
    `{Generator} `{Interpreter} `{SetOrder}
    (df : DataFrame) (q payload : option string) (w : World)
    (expr : string) (res : DataFrame) (cols : list string) :
  Api.query_of q payload ≠ "" →
  (App.query_boats df (Api.query_of q payload) "gemini-2.5-flash" 2 w).2
  = Some (expr, res, cols) →
  Polars.is_empty res = false →
  "id" ∉ Polars.columns res →
  (Api.boats df q payload w).2
  = Some (Api.Ids ((λ i, VInt (Z.of_nat i)) <$> seq 0 (Polars.height res))).
Proof.
  intros Hq Hout Hrows Hid. rewrite (boats_run df q payload w Hq). simpl.
  rewrite Hout. simpl. unfold Api.ids_of.
  by rewrite Hrows, (bool_decide_eq_false_2 _ Hid).
Qed.

Lemma boats_ids_are_positions_in_the_answer_witness :
  (@Api.boats (Fixture.always (Ok "df")) Fixture.name_interpreter
     Fixture.dedup_order (Fixture.boats 3) None (Some "all boats")
     no_effects).2
  = Some (Api.Ids [VInt 0; VInt 1; VInt 2]).
Proof.
  apply (@boats_ids_are_positions_in_the_answer (Fixture.always (Ok "df"))
           Fixture.name_interpreter Fixture.dedup_order (Fixture.boats 3)
           None (Some "all boats") no_effects "df" (Fixture.boats 3)
           ["name"; "price"]).
  - discriminate.
  - vm_compute. reflexivity.
  - reflexivity.
  - by apply (bool_decide_unpack _); vm_compute.
Defined.

(** ** app.py: the pending query of the page *)

(** X10.  [apply_pending_query_update] moves a pending [updated_query]
    into [query_input] and removes it: afterwards no update is pending,
    the other entries are untouched, a second call changes nothing, and an
    update stored by [main] is what [query_input] holds after the call. *)
Theorem pending_query_update_is_applied_once
    (session_state : gmap string string) (updated : string) :
  AppUi.apply_pending_query_update session_state !! "updated_query" = None
  ∧ (∀ key, key ≠ "updated_query" → key ≠ "query_input" →
       AppUi.apply_pending_query_update session_state !! key
       = session_state !! key)
  ∧ AppUi.apply_pending_query_update
      (AppUi.apply_pending_query_update session_state)
    = AppUi.apply_pending_query_update session_state
  ∧ AppUi.apply_pending_query_update
      (<["updated_query" := updated]> session_state) !! "query_input"
    = Some updated.
Proof.
  assert (Hgone : ∀ s : gmap string string,
            AppUi.apply_pending_query_update s !! "updated_query" = None).
  { intros s. unfold AppUi.apply_pending_query_update.
    destruct (s !! "updated_query") eqn:Hs; [|done].
    rewrite lookup_insert_ne by done. apply lookup_delete_eq. }
  split; [apply Hgone|]. split; [|split].
  - intros key Hk1 Hk2. unfold AppUi.apply_pending_query_update.
    destruct (session_state !! "updated_query"); [|done].
    rewrite lookup_insert_ne by done. by rewrite lookup_delete_ne.
  - unfold AppUi.apply_pending_query_update at 1. by rewrite Hgone.
  - unfold AppUi.apply_pending_query_update.
    rewrite lookup_insert_eq. apply lookup_insert_eq.
Qed.

(** ** ResultFormatter: cells outside the Price columns *)



(** In a Year column a float with a fraction, here 2020.5, is cut by
    filters3.py and printed as [repr] gives it by app.py. *)
Example year_with_fraction_differs `{Interpreter} :
  Filters3.cell_text (VFloat (S754_finite false 8886252975685632 (-42))) "year"
  = Ok "2020"
  ∧ App.format_value (VFloat (S754_finite false 8886252975685632 (-42))) "year"
    = Ok (float_repr (S754_finite false 8886252975685632 (-42))).
Proof. split; reflexivity. Qed.

(** ** The cards of the page and the lines of the console *)

Section CardsAndLines.
Context `{Interpreter}.

(** The columns a card lists: not the name column, present in the row,
    not null. *)
Definition listed (row : list (string * pyvalue)) (name_col : option string)
    (col : string) : bool :=
  negb (bool_decide (Some col = name_col))
  && match App.row_get row col with
     | Some VNone | None => false
     | Some _ => true
     end.

(** The [j]-th field of a card sits in slot [j mod 3]. *)
Definition dealt (fields : list (nat * string)) : Prop :=
  ∀ j slot text, fields !! j = Some (slot, text) → slot = j mod 3.

Lemma dealt_snoc fields text :
  dealt fields → dealt (fields ++ [(length fields mod 3, text)]).
Proof.
  intros Hd j slot t Hj.
  destruct (decide (j < length fields)) as [Hlt|Hge].
  - rewrite lookup_app_l in Hj by done. by eapply Hd.
  - rewrite lookup_app_r in Hj by lia.
    destruct (j - length fields) as [|d] eqn:Hd'; simpl in Hj; [|done].
    injection Hj as <- <-. by replace j with (length fields) by lia.
Qed.

(** One round of the loop of [display_boat_card]. *)
Definition card_step (row : list (string * pyvalue))
    (name_col : option string)
    (acc : result (nat * list (nat * string))) (col : string)
    : result (nat * list (nat * string)) :=
  rbind acc (λ '(col_idx, fields),
    if bool_decide (Some col = name_col) then Ok (col_idx, fields)
    else
      match App.row_get row col with
      | Some VNone | None => Ok (col_idx, fields)
      | Some v =>
          rbind (App.format_value v col) (λ value,
            let col_display := Str.title (Str.replace_char "_" " " col) in
            let value_display :=
              if bool_decide (col ∈ App.PRICE_COLS) then
                "<span class='price-highlight'>" +:+ value +:+ "</span>"
              else if bool_decide (col ∈ App.YEAR_COLS) then
                "<span class='year-highlight'>" +:+ value +:+ "</span>"
              else value in
            Ok (S col_idx,
                fields ++ [(col_idx mod 3,
                            "**" +:+ col_display +:+ ":** "
                              +:+ value_display)]))
      end).

Lemma card_step_ok row name_col i fields col st :
  card_step row name_col (Ok (i, fields)) col = Ok st →
  (listed row name_col col = false ∧ st = (i, fields))
  ∨ (listed row name_col col = true
     ∧ ∃ text, st = (S i, fields ++ [(i mod 3, text)])).
Proof.
  unfold card_step, listed. simpl.
  destruct (bool_decide (Some col = name_col)); simpl.
  { intros [= <-]. by left. }
  destruct (App.row_get row col) as [v|]; [|intros [= <-]; by left].
  destruct v; try (intros [= <-]; by left);
    (destruct (App.format_value _ col) as [value|msg]; simpl; [|done];
     intros [= <-]; right; split; [done | by eexists]).
Qed.

Lemma card_fold_raise row name_col cols msg :
  fold_left (card_step row name_col) cols (Raise msg) = Raise msg.
Proof. induction cols as [|c cols IH]; [done | apply IH]. Qed.

Lemma card_fields (row : list (string * pyvalue)) (name_col : option string)
    (cols : list string) :
  ∀ fields st,
    fold_left (card_step row name_col) cols (Ok (length fields, fields))
    = Ok st →
    dealt fields →
    dealt st.2
    ∧ length st.2
      = length fields + length (List.filter (listed row name_col) cols).
Proof.
  induction cols as [|col cols IH]; intros fields st; cbn [fold_left List.filter].
  { intros [= <-] Hd. simpl. split; [done | lia]. }
  destruct (card_step row name_col (Ok (length fields, fields)) col)
    as [st1|msg] eqn:Hstep.
  2: { by rewrite card_fold_raise. }
  apply card_step_ok in Hstep as [[-> ->]|[-> [text ->]]].
  - apply IH.
  - intros Hfold Hd.
    replace (S (length fields))
      with (length (fields ++ [(length fields mod 3, text)])) in Hfold
      by (rewrite length_app; simpl; lia).
    apply IH in Hfold as [Hd' Hlen]; [|by apply dealt_snoc].
    split; [done|]. rewrite Hlen, length_app. simpl. lia.
Qed.

End CardsAndLines.

(** X12.  A boat card lists one field for every display column that is
    not the name column and whose cell is present and not null, and deals
    the fields to the three slots in turn: the [j]-th field sits in slot
    [j mod 3]. *)
Theorem card_fields_are_dealt_in_turn `{Interpreter}
    (row : list (string * pyvalue)) (display_cols : list string)
    (title : string) (fields : list (nat * string)) :
  App.display_boat_card row display_cols = Ok (UiCard title fields) →
  dealt fields
  ∧ length fields
    = length (List.filter
                (listed row (App.first_present App.NAME_COLS display_cols))
                display_cols).
Proof.
  unfold App.display_boat_card.
  change (fold_left _ display_cols (Ok (0, [])))
    with (fold_left
            (card_step row (App.first_present App.NAME_COLS display_cols))
            display_cols (Ok (length (@nil (nat * string)), []))).
  destruct (fold_left _ display_cols _) as [st|msg] eqn:Hfold; simpl; [|done].
  intros [= _ <-].
  apply (card_fields row _ display_cols [] st) in Hfold; [done|].
  by intros j slot text ?.
Qed.

Lemma card_fields_are_dealt_in_turn_witness :
  ∃ title fields,
    @App.display_boat_card Fixture.name_interpreter
      [("name", VStr "Azimut 55"); ("price", VInt 450000); ("year", VNone);
       ("length", VInt 17); ("beam", VInt 5); ("port", VStr "Genova")]
      ["name"; "price"; "year"; "length"; "beam"; "port"]
    = Ok (UiCard title fields)
    ∧ length fields = 4
    ∧ fields.*1 = [0; 1; 2; 0].
Proof.
  eexists _, _. split; [vm_compute; reflexivity|].
  split; [|vm_compute; reflexivity].
  eapply eq_trans.
  - eapply (@card_fields_are_dealt_in_turn Fixture.name_interpreter
              [("name", VStr "Azimut 55"); ("price", VInt 450000);
               ("year", VNone); ("length", VInt 17); ("beam", VInt 5);
               ("port", VStr "Genova")]
              ["name"; "price"; "year"; "length"; "beam"; "port"]).
    vm_compute. reflexivity.
  - vm_compute. reflexivity.
Defined.

(** The value lines among what the console receives. *)
Definition is_field (p : Filters3.printed) : bool :=
  match p with Filters3.Field _ _ => true | _ => false end.

Definition field_lines (out : list Filters3.printed) : nat :=
  length (List.filter is_field out).

Section ConsoleLines.
Context `{Interpreter}.

Lemma row_get_present (df : DataFrame) i col :
  col ∈ Polars.columns df →
  is_Some (Filters3.row_get (Polars.row i df) col).
Proof.
  unfold Filters3.row_get, Polars.row, Polars.columns.
  induction df as [|s df IH]; simpl.
  { by intros ?%elem_of_nil. }
  destruct (String.eqb_spec (s_name s) col) as [Heq|Hne]; simpl.
  - by eauto.
  - intros [?|Hin]%elem_of_cons; [congruence | by apply IH].
Qed.

Lemma row_fields (row : list (string * pyvalue)) cols :
  ∀ out,
    (∀ col, col ∈ cols → is_Some (Filters3.row_get row col)) →
    Filters3.for_each
      (λ col,
         match Filters3.row_get row col with
         | Some value =>
             rmap (λ formatted_value,
                     [Filters3.Field
                        (Str.title (Str.replace_char "_" " " col))
                        formatted_value])
                  (Filters3.cell_text value col)
         | None => Ok []
         end) cols = Ok out →
    field_lines out = length cols.
Proof.
  induction cols as [|col cols IH]; intros out Hall; simpl.
  { by intros [= <-]. }
  destruct (Hall col ltac:(left)) as [v Hv]. rewrite Hv.
  destruct (Filters3.cell_text v col) as [t|]; simpl; [|done].
  destruct (Filters3.for_each _ cols) as [fs|] eqn:Hfs; simpl; [|done].
  intros [= <-]. unfold field_lines in *. simpl. f_equal.
  apply IH; [|done]. intros c Hc. apply Hall. by right.
Qed.

Lemma rows_fields cols (pairs : list (nat * list (string * pyvalue))) :
  ∀ out,
    (∀ i row col, (i, row) ∈ pairs → col ∈ cols →
       is_Some (Filters3.row_get row col)) →
    Filters3.for_each
      (λ '(i, row),
         rmap (cons (Filters3.RowHeader i))
           (Filters3.for_each
              (λ col,
                 match Filters3.row_get row col with
                 | Some value =>
                     rmap (λ formatted_value,
                             [Filters3.Field
                                (Str.title (Str.replace_char "_" " " col))
                                formatted_value])
                          (Filters3.cell_text value col)
                 | None => Ok []
                 end) cols)) pairs = Ok out →
    field_lines out = length pairs * length cols.
Proof.
  induction pairs as [|[i row] pairs IH]; intros out Hall; simpl.
  { by intros [= <-]. }
  destruct (Filters3.for_each _ cols) as [fs|] eqn:Hfs; simpl; [|done].
  destruct (Filters3.for_each _ pairs) as [rest|] eqn:Hrest; simpl; [|done].
  intros [= <-]. unfold field_lines in *. simpl.
  rewrite List.filter_app, length_app.
  apply row_fields in Hfs.
  2: { intros col Hcol. apply (Hall i row col); [left | done]. }
  unfold field_lines in Hfs. rewrite Hfs. f_equal.
  apply IH; [|done]. intros j r c Hj Hc. apply (Hall j r c); [by right | done].
Qed.

End ConsoleLines.

(** X13.  When [bullets] prints a table, it prints a value line for every
    display column of every row, nulls included (as "N/A"): the number of
    value lines is the number of rows times the length of the display
    list. *)
Theorem bullets_prints_every_cell `{Interpreter}
    (df : DataFrame) (cols : list string) (out : list Filters3.printed) :
  Filters3.bullets df cols = Ok out →
  Polars.is_empty df = false →
  field_lines out
  = Polars.height df * length (Filters3.get_display_columns df cols).
Proof.
  unfold Filters3.bullets. intros Hout Hrows. rewrite Hrows in Hout.
  pose proof (display_columns_distinct_and_present df cols) as (_ & Hin & _).
  change (App.get_display_columns df cols)
    with (Filters3.get_display_columns df cols) in Hin.
  destruct (Filters3.get_display_columns df cols) as [|c cs] eqn:Hcols.
  { injection Hout as <-. simpl. by rewrite Nat.mul_0_r. }
  destruct (Filters3.for_each _ _) as [body|] eqn:Hbody; simpl in Hout;
    [|done].
  injection Hout as <-. apply rows_fields in Hbody.
  - rewrite length_zip, length_seq, length_rows, Nat.min_id in Hbody.
    exact Hbody.
  - intros i row col [j Hi]%elem_of_zip_r%list_elem_of_lookup_1 Hcol.
    unfold Polars.rows in Hi.
    apply list_lookup_fmap_Some in Hi as (n & -> & _).
    apply row_get_present. by apply Hin.
Qed.

Lemma bullets_prints_every_cell_witness :
  ∃ out,
    @Filters3.bullets Fixture.name_interpreter
      [mkSeries "name" [VStr "Azimut"; VNone];
       mkSeries "price" [VNone; VInt 1200]] ["length"] = Ok out
    ∧ field_lines out = 4.
Proof.
  eexists. split; [vm_compute; reflexivity|].
  eapply eq_trans.
  - eapply (@bullets_prints_every_cell Fixture.name_interpreter
              [mkSeries "name" [VStr "Azimut"; VNone];
               mkSeries "price" [VNone; VInt 1200]] ["length"]);
      [vm_compute; reflexivity | reflexivity].
  - vm_compute. reflexivity.
Defined.

(** ** ExpressionGenerator: cleaning the reply *)

Section Stripping.
Import ReSem.
Implicit Types s t : string.

Lemma last_of_app b s t : last_of b (s +:+ t) = last_of (last_of b s) t.
Proof.
  revert b. induction s as [|c s IH]; intros b; [done|].
  rewrite str_app_cons. simpl. apply IH.
Qed.

Lemma last_of_nonempty b s : s ≠ "" → last_of b s = last_of None s.
Proof. destruct s as [|c s]; [done|]. done. Qed.

Lemma last_of_Some_nonempty s c : last_of None s = Some c → s ≠ "".
Proof. by destruct s. Qed.

Lemma lstrip_first p s c : first_of (Str.lstrip p s) = Some c → p c = false.
Proof.
  induction s as [|a s IH]; simpl; [done|].
  destruct (p a) eqn:Hp; [done|]. simpl. by intros [= <-].
Qed.

Lemma lstrip_stop p s c : first_of s = Some c → p c = false → Str.lstrip p s = s.
Proof. destruct s as [|a s]; simpl; [done|]. by intros [= ->] ->. Qed.

Lemma lstrip_app_all p t s :
  all p t = true → Str.lstrip p (t +:+ s) = Str.lstrip p s.
Proof.
  induction t as [|a t IH]; [done|]. simpl.
  intros [Ha Ht]%andb_true_iff. rewrite ?str_app_cons. simpl.
  rewrite Ha. by apply IH.
Qed.

Lemma lstrip_all p t : all p t = true → Str.lstrip p t = "".
Proof.
  intros Ht. rewrite <- (str_app_nil_r t). by rewrite lstrip_app_all.
Qed.

Lemma rstrip_first p s c :
  first_of (Str.rstrip p s) = Some c → first_of s = Some c.
Proof.
  destruct s as [|a s]; simpl; [done|].
  destruct (Str.rstrip p s); [destruct (p a)|]; simpl; done.
Qed.

Lemma rstrip_last p s c : last_of None (Str.rstrip p s) = Some c → p c = false.
Proof.
  induction s as [|a s IH]; simpl; [done|].
  destruct (Str.rstrip p s) as [|b t] eqn:Ht.
  - destruct (p a) eqn:Hp; simpl; [done|]. by intros [= <-].
  - simpl. simpl in IH. exact IH.
Qed.

Lemma rstrip_all p t : all p t = true → Str.rstrip p t = "".
Proof.
  induction t as [|a t IH]; [done|]. simpl.
  intros [Ha Ht]%andb_true_iff. by rewrite (IH Ht), Ha.
Qed.

Lemma rstrip_app_all p s t c :
  all p t = true → last_of None s = Some c → p c = false →
  Str.rstrip p (s +:+ t) = s.
Proof.
  intros Ht. induction s as [|a s IH]; [done|].
  rewrite str_app_cons. simpl. intros Hlast Hc.
  destruct s as [|b s].
  - rewrite str_app_nil_l, (rstrip_all p t Ht).
    simpl in Hlast. injection Hlast as ->. by rewrite Hc.
  - rewrite IH by done. done.
Qed.

Lemma rstrip_stop p s c :
  last_of None s = Some c → p c = false → Str.rstrip p s = s.
Proof.
  intros Hlast Hc. rewrite <- (str_app_nil_r s) at 1.
  by eapply rstrip_app_all.
Qed.

Lemma strip_chars_clean p s :
  (∀ c, first_of (Str.strip_chars p s) = Some c → p c = false)
  ∧ (∀ c, last_of None (Str.strip_chars p s) = Some c → p c = false).
Proof.
  unfold Str.strip_chars. split.
  - intros c Hc%rstrip_first. by eapply lstrip_first.
  - intros c. apply rstrip_last.
Qed.

Lemma strip_chars_all p s : all p s = true → Str.strip_chars p s = "".
Proof. intros Hs. unfold Str.strip_chars. by rewrite lstrip_all. Qed.

Lemma strip_chars_stop p s a z :
  first_of s = Some a → p a = false →
  last_of None s = Some z → p z = false →
  Str.strip_chars p s = s.
Proof.
  intros Ha Hpa Hz Hpz. unfold Str.strip_chars.
  rewrite (lstrip_stop p s a) by done. by eapply rstrip_stop.
Qed.

End Stripping.

(** X14.  The expression [get_polars_expression] makes of a reply never
    starts or ends with white space, and a reply of white space only
    gives the empty expression (which ends the query). *)
Theorem clean_reply_has_no_outer_space (text : string) :
  (∀ c, ReSem.first_of (App.clean_reply text) = Some c
        → Str.is_space c = false)
  ∧ (∀ c, ReSem.last_of None (App.clean_reply text) = Some c
          → Str.is_space c = false)
  ∧ (ReSem.all Str.is_space text = true → App.clean_reply text = "").
Proof.
  unfold App.clean_reply.
  split; [|split].
  - destruct (Str.startswith _ _); apply strip_chars_clean.
  - destruct (Str.startswith _ _); apply strip_chars_clean.
  - intros Hs. unfold Str.strip. by rewrite (strip_chars_all _ _ Hs).
Qed.

Lemma clean_reply_has_no_outer_space_witness :
  ReSem.all Str.is_space ("  " +:+ Str.nl +:+ " ") = true
  ∧ App.clean_reply ("  " +:+ Str.nl +:+ " ") = "".
Proof.
  split; [reflexivity|].
  by apply (clean_reply_has_no_outer_space ("  " +:+ Str.nl +:+ " ")).
Defined.

(** X15.  A reply that wraps an expression in a python code fence is
    unwrapped exactly: for every expression whose first and last
    characters are ASCII characters other than white space, the last one
    no backtick, cleaning the fenced reply gives the expression back.
    What lies between the two characters is free. *)
Theorem clean_reply_unwraps_a_python_fence (expr : string) (a z : ascii) :
  ReSem.first_of expr = Some a →
  Str.is_ascii_char a = true → Str.is_space a = false →
  ReSem.last_of None expr = Some z →
  Str.is_ascii_char z = true → Str.is_space z = false →
  App.is_fence_char z = false →
  App.clean_reply ("```python" +:+ Str.nl +:+ expr +:+ Str.nl +:+ "```")
  = expr.
Proof.
  intros Ha _ Hsa Hz _ Hsz Hfz. unfold App.clean_reply.
  assert (Hne : expr ≠ "") by by eapply last_of_Some_nonempty.
  set (text := "```python" +:+ Str.nl +:+ expr +:+ Str.nl +:+ "```").
  assert (Hstrip : Str.strip text = text).
  { apply (strip_chars_stop _ text "`" "`"); try done.
    unfold text. by rewrite !last_of_app. }
  rewrite Hstrip.
  change (Str.startswith "```" text) with true. cbv iota.
  assert (Hinner : Str.strip_chars App.is_fence_char text
                   = "python" +:+ Str.nl +:+ expr).
  { unfold Str.strip_chars.
    change text
      with ("```" +:+ ("python" +:+ Str.nl +:+ expr +:+ Str.nl +:+ "```")).
    rewrite lstrip_app_all by done.
    rewrite (lstrip_stop _ _ "p") by done.
    replace ("python" +:+ Str.nl +:+ expr +:+ Str.nl +:+ "```")
      with (("python" +:+ Str.nl +:+ expr) +:+ (Str.nl +:+ "```"))
      by (by rewrite !str_app_assoc).
    apply (rstrip_app_all _ _ _ z); [done | | done].
    rewrite !last_of_app. simpl. by rewrite last_of_nonempty. }
  rewrite Hinner.
  change (Str.removeprefix "python" ("python" +:+ Str.nl +:+ expr))
    with (Str.nl +:+ expr).
  unfold Str.strip, Str.strip_chars.
  rewrite lstrip_app_all by done.
  rewrite (lstrip_stop _ _ a) by done. by eapply rstrip_stop.
Qed.

Lemma clean_reply_unwraps_a_python_fence_witness :
  ReSem.first_of "df.filter(pl.col('price') < 500000)" = Some "d"%char
  ∧ Str.is_ascii_char "d" = true
  ∧ ReSem.last_of None "df.filter(pl.col('price') < 500000)" = Some ")"%char
  ∧ Str.is_ascii_char ")" = true
  ∧ App.clean_reply
      ("```python" +:+ Str.nl +:+ "df.filter(pl.col('price') < 500000)"
         +:+ Str.nl +:+ "```")
    = "df.filter(pl.col('price') < 500000)".
Proof.
  split; [reflexivity|]. split; [reflexivity|].
  split; [reflexivity|]. split; [reflexivity|].
  by apply (clean_reply_unwraps_a_python_fence
              "df.filter(pl.col('price') < 500000)" "d" ")").
Defined.

(** ** The matcher finds only what the pattern describes *)

Section ReSemFacts.
Import Re ReSem.

Lemma rep_go_many {A} p (k : cursor → option A) s :
  ∀ b n g m,
    rep_go p k b n g s = Some m →
    ∃ c', many p (Cursor b n s g) c' ∧ k c' = Some m.
Proof.
  induction s as [|c s IH]; intros b n g m; simpl.
  - intros Hk. eexists. split; [apply many_stop | done].
  - destruct (p c) eqn:Hp.
    + destruct (rep_go p k (Some c) (S n) g s) as [m'|] eqn:Hgo.
      * intros [= ->]. destruct (IH _ _ _ _ Hgo) as (c' & Hm & Hk).
        exists c'. split; [by apply many_step | done].
      * intros Hk. eexists. split; [apply many_stop | done].
    + intros Hk. eexists. split; [apply many_stop | done].
Qed.

(** The backtracking matcher is sound for [matches]. *)
Lemma run_matches {A} r :
  ∀ cur (k : cursor → option A) m,
    run r cur k = Some m → ∃ c', matches r cur c' ∧ k c' = Some m.
Proof.
  induction r as [|c|p|p|r IH|r1 IH1 r2 IH2| |r IH]; intros cur k m; simpl.
  - intros Hk. exists cur. split; [constructor | done].
  - intros (d & s & E & Hd & Hk)%step1_sound.
    apply Ascii.eqb_eq in Hd as <-. eexists. split; [|exact Hk].
    destruct cur as [b n t g]; simpl in *; subst t. constructor.
  - intros (d & s & E & Hd & Hk)%step1_sound. eexists. split; [|exact Hk].
    destruct cur as [b n t g]; simpl in *; subst t. by constructor.
  - intros (d & s & E & Hd & Hk)%step1_sound.
    apply rep_go_many in Hk as (c' & Hm & Hk). exists c'. split; [|done].
    destruct cur as [b n t g]; simpl in *; subst t. by constructor.
  - destruct (run r cur k) as [m'|] eqn:Hrun.
    + intros [= ->]. destruct (IH _ _ _ Hrun) as (c' & Hm & Hk).
      exists c'. split; [by constructor | done].
    + intros Hk. exists cur. split; [apply m_opt_skipped | done].
  - intros (c1 & Hm1 & Hk1)%IH1. apply IH2 in Hk1 as (c2 & Hm2 & Hk2).
    exists c2. split; [by econstructor | done].
  - destruct (xorb _ _) eqn:Hx; [|done].
    intros Hk. exists cur. split; [by constructor | done].
  - intros (c' & Hm & Hk)%IH. eexists. split; [|exact Hk]. by constructor.
Qed.

(** [w] is the text between two cursors. *)
Definition spans (c : cursor) (w : string) (c' : cursor) : Prop :=
  rest c = w +:+ rest c'
  ∧ pos c' = pos c + String.length w
  ∧ before c' = last_of (before c) w.

Lemma spans_nil c : spans c "" c.
Proof. repeat split; simpl; lia. Qed.

Lemma spans_app c1 w1 c2 w2 c3 :
  spans c1 w1 c2 → spans c2 w2 c3 → spans c1 (w1 +:+ w2) c3.
Proof.
  intros (E1 & P1 & B1) (E2 & P2 & B2). repeat split.
  - by rewrite E1, E2, str_app_assoc.
  - rewrite str_length_app. lia.
  - by rewrite last_of_app, <- B1.
Qed.

Lemma spans_one b n ch s g g' :
  spans (Cursor b n (String ch s) g) (String ch "") (Cursor (Some ch) (S n) s g').
Proof. repeat split; simpl; lia. Qed.

Lemma spans_same_place c w c' b g :
  spans c w c' → before c' = b →
  spans c w (Cursor b (pos c') (rest c') g).
Proof. intros (E & P & B) <-. by repeat split. Qed.

Lemma many_spans p c c' :
  many p c c' →
  ∃ w, all p w = true ∧ spans c w c' ∧ group1 c' = group1 c.
Proof.
  induction 1 as [c|b n ch s g c' Hp _ (w & Hw & Hs & Hg)].
  - exists "". split; [done|]. split; [apply spans_nil | done].
  - exists (String ch w). split; [simpl; by rewrite Hp|]. split; [|done].
    apply (spans_app _ (String ch "") _ w _ (spans_one b n ch s g g) Hs).
Qed.

Lemma matches_spans r c c' : matches r c c' → ∃ w, spans c w c'.
Proof.
  induction 1 as [c|ch b n s g|p ch b n s g Hp|p ch b n s g c' Hp Hmany
                 |r c c' _ IH|r c|r1 r2 c c1 c2 _ [w1 H1] _ [w2 H2]
                 |c Hx|r c c' _ [w Hw]].
  - exists "". apply spans_nil.
  - exists (String ch ""). apply spans_one.
  - exists (String ch ""). apply spans_one.
  - destruct (many_spans _ _ _ Hmany) as (w & _ & Hs & _).
    exists (String ch w).
    apply (spans_app _ (String ch "") _ w _ (spans_one b n ch s g g) Hs).
  - exact IH.
  - exists "". apply spans_nil.
  - exists (w1 +:+ w2). by eapply spans_app.
  - exists "". apply spans_nil.
  - exists w. by apply spans_same_place.
Qed.

Lemma spans_take c w c' :
  spans c w c' → Str.take (pos c' - pos c) (rest c) = w.
Proof.
  intros (E & P & _). replace (pos c' - pos c) with (String.length w) by lia.
  by rewrite E, take_app_exact.
Qed.

(** A match found at a cursor is a match of the pattern there. *)
Lemma match_at_matches r cur m :
  match_at r cur = Some m →
  ∃ c', matches r cur c'
        ∧ spans cur (m_text m) c'
        ∧ m_start m = pos cur
        ∧ m_end m = pos c'
        ∧ m_group1 m = group1 c'.
Proof.
  unfold match_at. intros (c' & Hm & [= <-])%run_matches. simpl.
  exists c'. destruct (matches_spans _ _ _ Hm) as [w Hw].
  rewrite (spans_take _ _ _ Hw). done.
Qed.

(** What [finditer] reports about a match: where its text is, and that
    the pattern matches there, seen from the character before it. *)
Definition found (r : regex) (text : string) (m : rmatch) : Prop :=
  ∃ pre post c',
    text = pre +:+ m_text m +:+ post
    ∧ m_start m = String.length pre
    ∧ m_end m = String.length pre + String.length (m_text m)
    ∧ matches r
        (Cursor (last_of None pre) (String.length pre) (m_text m +:+ post)
           None) c'
    ∧ spans
        (Cursor (last_of None pre) (String.length pre) (m_text m +:+ post)
           None) (m_text m) c'
    ∧ rest c' = post
    ∧ m_group1 m = group1 c'.

Lemma finditer_go_found r s :
  ∀ pre skip,
    Forall (found r (pre +:+ s))
           (finditer_go r (last_of None pre) (String.length pre) skip s).
Proof.
  induction s as [|c s IH]; intros pre skip; simpl; [constructor|].
  assert (Hnext : ∀ skip',
    Forall (found r (pre +:+ String c s))
           (finditer_go r (Some c) (S (String.length pre)) skip' s)).
  { intros skip'. specialize (IH (pre +:+ String c "") skip').
    rewrite str_app_assoc, str_length_app, last_of_app in IH. simpl in IH.
    by rewrite Nat.add_1_r in IH. }
  destruct skip as [|skip]; [|apply Hnext].
  destruct (match_at r _) as [m|] eqn:Hm; [|apply Hnext].
  constructor; [|apply Hnext].
  apply match_at_matches in Hm as (c' & Hmatch & Hsp & Hs & He & Hg).
  pose proof Hsp as (E & P & B).
  simpl in *. exists pre, (rest c'), c'.
  rewrite <- E. repeat split; try done. lia.
Qed.

Lemma finditer_found r text : Forall (found r text) (finditer r text).
Proof. apply (finditer_go_found r text "" 0). Qed.

End ReSemFacts.

(** ** The number spans of a query text *)

Section NumberShape.
Import Re ReSem.

Lemma digit_is_word c : Str.is_digit c = true → Str.is_word c = true.
Proof. unfold Str.is_word. intros ->. by rewrite orb_true_r. Qed.

Lemma all_last_of p w ch :
  p ch = true → all p w = true →
  ∃ x, last_of (Some ch) w = Some x ∧ p x = true.
Proof.
  revert ch. induction w as [|c w IH]; intros ch Hch; simpl.
  - intros _. by exists ch.
  - intros [Hc Hw]%andb_true_iff. by apply IH.
Qed.

Lemma rep1_spans p c c' :
  matches (Rep1 p) c c' →
  ∃ ch w,
    p ch = true ∧ all p w = true
    ∧ spans c (String ch w) c'
    ∧ group1 c' = group1 c.
Proof.
  inversion 1 as [| | |p' ch b n s g c'' Hp Hmany| | | | |]; subst.
  destruct (many_spans _ _ _ Hmany) as (w & Hw & Hs & Hg).
  exists ch, w. split; [done|]. split; [done|]. split; [|done].
  apply (spans_app _ (String ch "") _ w _ (spans_one b n ch s g g) Hs).
Qed.

Lemma cls_spans p c c' :
  matches (Cls p) c c' →
  ∃ ch, p ch = true ∧ spans c (String ch "") c' ∧ group1 c' = group1 c.
Proof.
  inversion 1; subst. eexists. split; [done|]. split; [apply spans_one | done].
Qed.

Lemma chr_spans ch c c' :
  matches (Chr ch) c c' →
  spans c (String ch "") c' ∧ group1 c' = group1 c.
Proof. inversion 1; subst. split; [apply spans_one | done]. Qed.

Lemma bnd_here c c' :
  matches Bnd c c' → c' = c ∧ xorb (word_before c) (word_here c) = true.
Proof. by inversion 1; subst. Qed.

Lemma cat_split r1 r2 c c' :
  matches (Cat r1 r2) c c' → ∃ c1, matches r1 c c1 ∧ matches r2 c1 c'.
Proof. inversion 1; subst. eauto. Qed.

Lemma opt_cases r c c' :
  matches (Opt r) c c' → matches r c c' ∨ c' = c.
Proof. inversion 1; subst; eauto. Qed.

Lemma spans_word_here c ch w c' :
  spans c (String ch w) c' → word_here c = Str.is_word ch.
Proof. intros (E & _). unfold word_here. by rewrite E. Qed.

Lemma spans_word_before c w c' x :
  spans c w c' → last_of (before c) w = Some x →
  word_before c' = Str.is_word x.
Proof. intros (_ & _ & B) E. unfold word_before. by rewrite B, E. Qed.

(** What the number pattern matches: a number literal that no word
    character touches on either side. *)
Lemma number_pattern_shape c c' :
  matches App.number_pattern c c' →
  ∃ lit,
    spans c lit c' ∧ number_literal lit
    ∧ word_before c = false ∧ word_here c' = false
    ∧ group1 c' = group1 c.
Proof.
  unfold App.number_pattern.
  intros (c1 & [-> Hb1]%bnd_here & Hrest)%cat_split.
  apply cat_split in Hrest as (c2 & Hwhole & Hrest).
  apply cat_split in Hrest as (c3 & Hopt & [Hc3 Hb2]%bnd_here).
  subst c3.
  apply rep1_spans in Hwhole as (ch & w & Hch & Hw & Hs & Hg).
  rewrite (spans_word_here _ _ _ _ Hs), (digit_is_word _ Hch) in Hb1.
  destruct (all_last_of _ w ch Hch Hw) as (x & Hx & Hxd).
  assert (Hlast : ∀ b, last_of b (String ch w) = Some x) by done.
  apply opt_cases in Hopt as [Hfrac | Hc2].
  - apply cat_split in Hfrac as (c4 & Hsep & Hfrac).
    apply cls_spans in Hsep as (sep & Hsep & Hs1 & Hg1).
    apply rep1_spans in Hfrac as (ch2 & w2 & Hch2 & Hw2 & Hs2 & Hg2).
    destruct (all_last_of _ w2 ch2 Hch2 Hw2) as (y & Hy & Hyd).
    pose proof (spans_app _ _ _ _ _ Hs (spans_app _ _ _ _ _ Hs1 Hs2)) as Hall.
    exists (String ch w +:+ String sep "" +:+ String ch2 w2).
    split; [exact Hall|]. split; [|split; [|split]].
    + exists (String ch w). split; [done|]. split; [simpl; by rewrite Hch|].
      right. exists sep, (String ch2 w2). split; [done|]. split; [done|].
      split; [simpl; by rewrite Hch2 | done].
    + by destruct (word_before c).
    + assert (Hwb : word_before c' = true).
      { rewrite (spans_word_before _ _ _ y Hall); [by apply digit_is_word|].
        by rewrite !last_of_app. }
      rewrite Hwb in Hb2. by destruct (word_here c').
    + congruence.
  - subst c2.
    exists (String ch w). split; [done|]. split; [|split; [|split]].
    + exists (String ch w). split; [done|]. split; [simpl; by rewrite Hch|].
      by left.
    + by destruct (word_before c).
    + assert (Hwb : word_before c' = true).
      { rewrite (spans_word_before _ _ _ x Hs); [by apply digit_is_word|].
        apply Hlast. }
      rewrite Hwb in Hb2. by destruct (word_here c').
    + done.
Qed.

End NumberShape.

(** A match of the number pattern that a scan reports, in its text. *)
Lemma number_match_in_text text m :
  m ∈ Re.finditer App.number_pattern text →
  ∃ pre post,
    text = pre +:+ Re.m_text m +:+ post
    ∧ Re.m_start m = String.length pre
    ∧ Re.m_end m = Re.m_start m + String.length (Re.m_text m)
    ∧ ReSem.number_literal (Re.m_text m)
    ∧ ReSem.is_word_opt (ReSem.last_of None pre) = false
    ∧ ReSem.is_word_opt (ReSem.first_of post) = false.
Proof.
  intros Hm.
  pose proof (finditer_found App.number_pattern text) as Hall.
  rewrite Forall_forall in Hall.
  destruct (Hall m Hm) as (pre & post & c' & E & Hs & He & Hmatch & Hsp
                           & Hpost & _).
  apply number_pattern_shape in Hmatch
    as (lit & Hlit & Hnum & Hbefore & Hafter & _).
  assert (lit = Re.m_text m) as ->.
  { by rewrite <- (spans_take _ _ _ Hlit), (spans_take _ _ _ Hsp). }
  exists pre, post.
  split; [exact E|]. split; [exact Hs|]. split; [lia|].
  split; [exact Hnum|]. split; [exact Hbefore|].
  unfold Re.word_here in Hafter. rewrite Hpost in Hafter.
  by destruct post.
Qed.

Lemma number_literal_nonempty lit :
  ReSem.number_literal lit → 0 < String.length lit.
Proof.
  intros (whole & Hne & _ & [-> | (sep & frac & _ & _ & _ & ->)]).
  - destruct whole; [done | simpl; lia].
  - destruct whole; [done | simpl; lia].
Qed.

(** X16 (app.py, extract_number_spans).  For an ASCII text, every span
    reported is a number literal (digits, or digits, one point or comma,
    and digits) that stands in the text at the reported offsets, and the
    characters next to it, where there are any, are not word
    characters. *)
Theorem number_spans_are_whole_numbers text lit start end_ :
  Str.is_ascii text = true →
  (lit, start, end_) ∈ App.extract_number_spans text →
  ∃ pre post,
    text = pre +:+ lit +:+ post
    ∧ start = String.length pre
    ∧ end_ = start + String.length lit
    ∧ ReSem.number_literal lit
    ∧ ReSem.is_word_opt (ReSem.last_of None pre) = false
    ∧ ReSem.is_word_opt (ReSem.first_of post) = false.
Proof.
  unfold App.extract_number_spans.
  intros _ (m & [= -> -> ->] & Hm)%list_elem_of_fmap.
  by apply number_match_in_text.
Qed.

Lemma number_spans_are_whole_numbers_witness :
  Str.is_ascii "boats under 500,000 eur" = true
  ∧ ("500,000", 12, 19) ∈ App.extract_number_spans "boats under 500,000 eur"
  ∧ ∃ pre post,
      "boats under 500,000 eur" = pre +:+ "500,000" +:+ post
      ∧ 12 = String.length pre
      ∧ 19 = 12 + String.length "500,000"
      ∧ ReSem.number_literal "500,000"
      ∧ ReSem.is_word_opt (ReSem.last_of None pre) = false
      ∧ ReSem.is_word_opt (ReSem.first_of post) = false.
Proof.
  assert (Hin : ("500,000", 12, 19)
                ∈ App.extract_number_spans "boats under 500,000 eur").
  { vm_compute. apply list_elem_of_here. }
  split; [reflexivity|]. split; [exact Hin|].
  exact (number_spans_are_whole_numbers
           "boats under 500,000 eur" "500,000" 12 19 eq_refl Hin).
Defined.

(** ** The matches of one scan lie one after the other *)

Section Segments.
Import Re ReSem.

Lemma segmented_shift n c s ms :
  segmented (S n) s ms → segmented n (String c s) ms.
Proof.
  inversion 1 as [|n' s' gap m tl ms' E Hs He Hrest]; subst; [constructor|].
  apply (seg_cons n _ (String c gap) m tl ms'); try done.
  rewrite Hs. simpl. lia.
Qed.

Lemma finditer_go_segmented r s :
  ∀ b n skip,
    skip ≤ String.length s →
    segmented (n + skip) (Str.drop skip s) (finditer_go r b n skip s).
Proof.
  induction s as [|c s IH]; intros b n skip Hskip; simpl in *.
  { constructor. }
  destruct skip as [|skip].
  - rewrite Nat.add_0_r.
    assert (Hnext : segmented n (String c s)
                      (finditer_go r (Some c) (S n) 0 s)).
    { apply segmented_shift. specialize (IH (Some c) (S n) 0).
      rewrite Nat.add_0_r in IH. destruct s; apply IH; simpl; lia. }
    destruct (match_at r _) as [m|] eqn:Hm; [|exact Hnext].
    apply match_at_matches in Hm as (c' & _ & (E & P & _) & Hs & He & _).
    simpl in *.
    apply (seg_cons n _ "" m (rest c')).
    + done.
    + rewrite Hs. simpl. lia.
    + lia.
    + destruct (m_text m) as [|d w] eqn:Htext.
      * rewrite str_app_nil_l in E. simpl in P. rewrite <- E.
        replace (m_end m - m_start m - 1) with 0 by lia.
        replace (m_end m) with n by lia. exact Hnext.
      * rewrite str_app_cons in E. injection E as -> ->. simpl in P.
        replace (m_end m - m_start m - 1) with (String.length w) by lia.
        specialize (IH (Some d) (S n) (String.length w)).
        rewrite drop_app_exact in IH.
        replace (m_end m) with (S n + String.length w) by lia.
        apply IH. rewrite str_length_app. lia.
  - replace (n + S skip) with (S n + skip) by lia. apply IH. lia.
Qed.

Lemma finditer_segmented r text : segmented 0 text (finditer r text).
Proof. apply (finditer_go_segmented r text None 0 0). lia. Qed.

Lemma segmented_bounds n s ms :
  segmented n s ms →
  Forall (λ m, n ≤ m_start m ∧ m_start m ≤ m_end m
               ∧ m_end m ≤ n + String.length s) ms.
Proof.
  induction 1 as [|n s gap m tl ms E Hs He _ IH]; constructor.
  - subst s. rewrite !str_length_app. lia.
  - eapply Forall_impl; [exact IH|]. intros m' (? & ? & ?). simpl in *.
    subst s. rewrite !str_length_app. lia.
Qed.

Lemma segmented_ordered n s ms :
  segmented n s ms →
  ∀ i j m1 m2,
    i < j → ms !! i = Some m1 → ms !! j = Some m2 →
    m_end m1 ≤ m_start m2.
Proof.
  induction 1 as [|n s gap m tl ms E Hs He Hrest IH]; intros i j m1 m2 Hij;
    [done|].
  destruct j as [|j]; [lia|]. destruct i as [|i]; simpl.
  - intros [= <-] Hj. apply segmented_bounds in Hrest.
    rewrite Forall_forall in Hrest.
    apply list_elem_of_lookup_2, Hrest in Hj. lia.
  - apply IH. lia.
Qed.

End Segments.

(** X17 (app.py, extract_number_spans).  Every span of a text is not
    empty and ends inside the text, and the spans are reported from left
    to right without overlap: a span ends before any later one starts. *)
Theorem number_spans_are_ordered_and_apart (text : string) :
  let numbers := App.extract_number_spans text in
  (∀ i lit start end_,
     numbers !! i = Some (lit, start, end_) →
     start < end_ ∧ end_ ≤ String.length text)
  ∧ (∀ i j l1 s1 e1 l2 s2 e2,
       i < j →
       numbers !! i = Some (l1, s1, e1) →
       numbers !! j = Some (l2, s2, e2) →
       e1 ≤ s2).
Proof.
  cbv zeta. unfold App.extract_number_spans.
  pose proof (finditer_segmented App.number_pattern text) as Hseg.
  split.
  - intros i lit start end_. rewrite list_lookup_fmap.
    intros (m & Hm & [= -> -> ->])%fmap_Some.
    apply segmented_bounds in Hseg. rewrite Forall_forall in Hseg.
    pose proof (Hseg m (list_elem_of_lookup_2 _ _ _ Hm)) as (_ & _ & Hend).
    destruct (number_match_in_text text m (list_elem_of_lookup_2 _ _ _ Hm))
      as (_ & _ & _ & _ & He & Hn%number_literal_nonempty & _).
    simpl in Hend. lia.
  - intros i j l1 s1 e1 l2 s2 e2 Hij. rewrite !list_lookup_fmap.
    intros (m1 & Hm1 & [= -> -> ->])%fmap_Some
           (m2 & Hm2 & [= -> -> ->])%fmap_Some.
    exact (segmented_ordered _ _ _ Hseg i j m1 m2 Hij Hm1 Hm2).
Qed.

Lemma number_spans_are_ordered_and_apart_witness :
  let numbers := App.extract_number_spans "from 2015 to 2020.5 ok" in
  numbers = [("2015", 5, 9); ("2020.5", 13, 19)]
  ∧ (5 < 9 ∧ 9 ≤ String.length "from 2015 to 2020.5 ok")
  ∧ (13 < 19 ∧ 19 ≤ String.length "from 2015 to 2020.5 ok")
  ∧ 9 ≤ 13.
Proof.
  cbv zeta.
  destruct (number_spans_are_ordered_and_apart "from 2015 to 2020.5 ok")
    as [Hin Hord].
  split; [reflexivity|].
  split; [exact (Hin 0 "2015" 5 9 eq_refl)|].
  split; [exact (Hin 1 "2020.5" 13 19 eq_refl)|].
  exact (Hord 0 1 "2015" 5 9 "2020.5" 13 19 ltac:(lia) eq_refl eq_refl).
Defined.

(** ** Rewriting and highlighting the numbers of a text *)

(** A text laid out as gaps and entries in turn, closed by a last gap. *)
Fixpoint weave (gaps entries : list string) (last : string) : string :=
  match gaps, entries with
  | g :: gaps', x :: entries' => g +:+ x +:+ weave gaps' entries' last
  | _, _ => last
  end.

Section Rewriting.
Import Re ReSem.

Definition span_of (m : rmatch) : string * nat * nat :=
  (m_text m, m_start m, m_end m).

(** One turn of the loop that writes the values back. *)
Definition splice (updated_query : string)
    (x : string * nat * nat * string) : string :=
  let '((_, start, end_), new_val) := x in
  Str.take start updated_query +:+ new_val +:+ Str.drop end_ updated_query.

Lemma rewrite_numbers_fold text numbers new_vals :
  App.rewrite_numbers text numbers new_vals
  = fold_left splice (zip (reverse numbers) (reverse new_vals)) text.
Proof. reflexivity. Qed.

Lemma zip_reverse {A B} (l : list A) :
  ∀ k : list B,
    length l = length k → zip (reverse l) (reverse k) = reverse (zip l k).
Proof.
  induction l as [|x l IH]; intros [|y k] Hlen; try done.
  simpl in Hlen. rewrite !reverse_cons.
  rewrite zip_with_app by (rewrite !length_reverse; lia).
  rewrite IH by lia. simpl. by rewrite reverse_cons.
Qed.

Lemma fold_left_reverse {A B} (f : A → B → A) (l : list B) a :
  fold_left f (reverse l) a = foldr (λ x acc, f acc x) a l.
Proof.
  induction l as [|x l IH]; [done|].
  rewrite reverse_cons, fold_left_app. simpl. by rewrite IH.
Qed.

Lemma take_drop_0 s : Str.take 0 s = "" ∧ Str.drop 0 s = s.
Proof. by destruct s. Qed.

(** The loop from the last span to the first is one pass from the
    left. *)
Lemma rewrite_segmented n s ms :
  segmented n s ms →
  ∀ pre vals,
    String.length pre = n →
    foldr (λ x acc, splice acc x) (pre +:+ s) (zip (span_of <$> ms) vals)
    = pre +:+ substitute n s ms vals.
Proof.
  induction 1 as [|n s gap m tl ms E Hs He _ IH]; intros pre vals Hpre;
    [done|].
  destruct vals as [|v vals]; [done|]. cbn [fmap list_fmap zip zip_with foldr].
  subst s.
  specialize (IH (pre +:+ gap +:+ m_text m) vals).
  rewrite !str_app_assoc in IH. rewrite IH
    by (rewrite !str_length_app; lia).
  unfold splice, span_of. cbn [substitute].
  replace (m_start m - n) with (String.length gap) by lia.
  replace (m_end m - n) with (String.length (gap +:+ m_text m))
    by (rewrite str_length_app; lia).
  rewrite take_app_exact.
  rewrite <- (str_app_assoc gap (m_text m) tl), drop_app_exact.
  set (X := substitute (m_end m) tl ms vals).
  assert (Str.take (m_start m) (pre +:+ gap +:+ m_text m +:+ X)
          = pre +:+ gap) as ->.
  { rewrite <- (str_app_assoc pre gap).
    replace (m_start m) with (String.length (pre +:+ gap))
      by (rewrite str_length_app; lia).
    apply take_app_exact. }
  assert (Str.drop (m_end m) (pre +:+ gap +:+ m_text m +:+ X) = X) as ->.
  { rewrite <- (str_app_assoc gap (m_text m) X),
      <- (str_app_assoc pre (gap +:+ m_text m) X).
    replace (m_end m) with (String.length (pre +:+ gap +:+ m_text m))
      by (rewrite !str_length_app; lia).
    apply drop_app_exact. }
  by rewrite !str_app_assoc.
Qed.

Lemma rewrite_numbers_substitute text ms vals :
  segmented 0 text ms →
  length vals = length ms →
  App.rewrite_numbers text (span_of <$> ms) vals = substitute 0 text ms vals.
Proof.
  intros Hseg Hlen.
  rewrite rewrite_numbers_fold, zip_reverse, fold_left_reverse
    by (by rewrite length_fmap).
  apply (rewrite_segmented 0 text ms Hseg "" vals). done.
Qed.

Lemma substitute_weave n s ms :
  segmented n s ms →
  ∃ gaps last,
    length gaps = length ms
    ∧ s = weave gaps (m_text <$> ms) last
    ∧ ∀ vals,
        length vals = length ms →
        substitute n s ms vals = weave gaps vals last.
Proof.
  induction 1 as [n s|n s gap m tl ms E Hs He _ (gaps & last & Hlen & Htl & IH)].
  - exists [], s. split; [done|]. split; [done|]. by intros [|??].
  - exists (gap :: gaps), last. split; [simpl; lia|]. split.
    + rewrite fmap_cons. cbn [weave]. by rewrite <- Htl.
    + intros [|v vals] Hvals; [done|]. simpl in *.
      replace (m_start m - n) with (String.length gap) by lia.
      replace (m_end m - n) with (String.length (gap +:+ m_text m))
        by (rewrite str_length_app; lia).
      rewrite E, take_app_exact.
      rewrite <- (str_app_assoc gap (m_text m) tl), drop_app_exact.
      rewrite IH by lia. done.
Qed.

End Rewriting.

(** X18 (app.py, main, the loop that writes the edited values back).
    With one new value for each span, the loop leaves the text between
    the number literals as it is and puts each new value in the place of
    its literal: the text is gaps and literals in turn, the result is the
    same gaps and the new values in turn. *)
Theorem rewrite_numbers_swaps_each_literal text new_vals :
  let numbers := App.extract_number_spans text in
  length new_vals = length numbers →
  ∃ gaps last,
    length gaps = length numbers
    ∧ text = weave gaps ((λ span, span.1.1) <$> numbers) last
    ∧ App.rewrite_numbers text numbers new_vals = weave gaps new_vals last.
Proof.
  cbv zeta. unfold App.extract_number_spans. rewrite length_fmap.
  intros Hlen.
  pose proof (finditer_segmented App.number_pattern text) as Hseg.
  destruct (substitute_weave _ _ _ Hseg) as (gaps & last & Hgaps & Htext & Hsub).
  exists gaps, last. split; [done|]. split.
  - by rewrite <- list_fmap_compose.
  - rewrite <- (Hsub new_vals Hlen).
    by apply (rewrite_numbers_substitute text _ new_vals Hseg).
Qed.

Lemma rewrite_numbers_swaps_each_literal_witness :
  let text := "under 500,000 eur from 2015" in
  let numbers := App.extract_number_spans text in
  length ["450000"; "2018"] = length numbers
  ∧ ∃ gaps last,
      length gaps = length numbers
      ∧ text = weave gaps ((λ span, span.1.1) <$> numbers) last
      ∧ App.rewrite_numbers text numbers ["450000"; "2018"]
        = weave gaps ["450000"; "2018"] last.
Proof.
  split; [reflexivity|].
  apply (rewrite_numbers_swaps_each_literal
           "under 500,000 eur from 2015" ["450000"; "2018"]).
  reflexivity.
Defined.

(** ** Highlighting is rewriting with marked literals *)

Section Highlighting.
Import Re ReSem.

(** A match with its own text in group 1. *)
Definition with_group (m : rmatch) : rmatch :=
  Match (m_text m) (m_start m) (m_end m) (Some (m_text m)).

Lemma rep_go_fmap {A B} (g : A → B) p (k0 : cursor → option A)
    (k1 : cursor → option B) :
  (∀ c, k1 c = g <$> k0 c) →
  ∀ s b n gr, rep_go p k1 b n gr s = g <$> rep_go p k0 b n gr s.
Proof.
  intros Hk. induction s as [|c s IH]; intros b n gr; simpl; [apply Hk|].
  destruct (p c); [|apply Hk]. rewrite IH.
  destruct (rep_go p k0 _ _ _ s); [done | apply Hk].
Qed.

(** Mapping the result of the continuation maps the result of the
    search. *)
Lemma run_fmap {A B} (g : A → B) r :
  ∀ cur (k0 : cursor → option A) (k1 : cursor → option B),
    (∀ c, k1 c = g <$> k0 c) →
    run r cur k1 = g <$> run r cur k0.
Proof.
  induction r as [|c|p|p|r IH|r1 IH1 r2 IH2| |r IH]; intros cur k0 k1 Hk;
    simpl.
  - apply Hk.
  - unfold step1. destruct (rest cur) as [|d s]; [done|].
    destruct (Ascii.eqb c d); [apply Hk | done].
  - unfold step1. destruct (rest cur) as [|d s]; [done|].
    destruct (p d); [apply Hk | done].
  - unfold step1. destruct (rest cur) as [|d s]; [done|].
    destruct (p d); [by apply rep_go_fmap | done].
  - rewrite (IH cur k0 k1 Hk).
    destruct (run r cur k0); [done | apply Hk].
  - apply IH1. intros c. by apply IH2.
  - destruct (xorb _ _); [apply Hk | done].
  - apply IH. intros c. apply Hk.
Qed.

Lemma match_at_grp r cur :
  match_at (Grp r) cur = with_group <$> match_at r cur.
Proof. unfold match_at. simpl. by apply run_fmap. Qed.

Lemma finditer_go_grp r s :
  ∀ b n skip,
    finditer_go (Grp r) b n skip s = with_group <$> finditer_go r b n skip s.
Proof.
  induction s as [|c s IH]; intros b n skip; simpl; [done|].
  destruct skip as [|skip]; [|apply IH].
  rewrite match_at_grp. destruct (match_at r _) as [m|]; simpl; [|apply IH].
  by rewrite IH.
Qed.

Lemma substitute_with_group n s ms vals :
  substitute n s (with_group <$> ms) vals = substitute n s ms vals.
Proof.
  revert n s vals. induction ms as [|m ms IH]; intros n s [|v vals]; try done.
  simpl. by rewrite IH.
Qed.

Lemma substitute_shift n c s ms vals :
  segmented (S n) s ms →
  substitute n (String c s) ms vals = String c (substitute (S n) s ms vals).
Proof.
  inversion 1 as [|n' s' gap m tl ms' E Hs He Hrest]; subst; [by destruct vals|].
  destruct vals as [|v vals]; [done|]. cbn [substitute].
  replace (m_start m - n) with (S (m_start m - S n)) by lia.
  replace (m_end m - n) with (S (m_end m - S n)) by lia.
  done.
Qed.

(** [re.sub] replaces the matches that [re.finditer] finds. *)
Lemma sub_go_substitute r repl s :
  (∀ cur m, match_at r cur = Some m → m_text m ≠ "") →
  ∀ b n skip,
    skip ≤ String.length s →
    AppUi.sub_go r repl b n skip s
    = substitute (n + skip) (Str.drop skip s) (finditer_go r b n skip s)
        (repl <$> finditer_go r b n skip s).
Proof.
  intros Hne. induction s as [|c s IH]; intros b n skip Hskip.
  { by destruct skip. }
  destruct skip as [|skip]; simpl in Hskip.
  - rewrite Nat.add_0_r. cbn [AppUi.sub_go finditer_go].
    change (Str.drop 0 (String c s)) with (String c s).
    destruct (match_at r _) as [m|] eqn:Hm.
    + pose proof (Hne _ _ Hm) as Htext.
      apply match_at_matches in Hm as (c' & _ & (E & P & _) & Hs & He & _).
      simpl in E, P, Hs.
      destruct (m_text m) as [|d w] eqn:Hw; [done|].
      rewrite str_app_cons in E. injection E as -> ->. simpl in P.
      replace (m_end m - m_start m - 1) with (String.length w) by lia.
      replace (m_end m =? m_start m)%nat with false
        by (symmetry; apply Nat.eqb_neq; lia).
      rewrite fmap_cons. cbn [substitute].
      replace (m_start m - n) with 0 by lia.
      replace (m_end m - n) with (S (String.length w)) by lia.
      cbn [Str.take Str.drop].
      rewrite (IH (Some d) (S n) (String.length w))
        by (rewrite str_length_app; lia).
      rewrite str_app_nil_l.
      by replace (m_end m) with (S n + String.length w) by lia.
    + rewrite (IH (Some c) (S n) 0) by lia. rewrite Nat.add_0_r.
      destruct (take_drop_0 s) as [_ ->].
      symmetry. apply substitute_shift.
      pose proof (finditer_go_segmented r s (Some c) (S n) 0) as Hseg.
      rewrite Nat.add_0_r in Hseg. destruct (take_drop_0 s) as [_ Hd].
      rewrite Hd in Hseg. apply Hseg. lia.
  - cbn [AppUi.sub_go finditer_go Str.drop].
    replace (n + S skip) with (S n + skip) by lia. apply IH. lia.
Qed.

Lemma number_match_nonempty cur m :
  match_at App.number_pattern cur = Some m → m_text m ≠ "".
Proof.
  intros (c' & Hmatch & Hsp & _)%match_at_matches.
  apply number_pattern_shape in Hmatch as (lit & Hlit & Hnum & _).
  assert (lit = m_text m) as ->.
  { by rewrite <- (spans_take _ _ _ Hlit), (spans_take _ _ _ Hsp). }
  apply number_literal_nonempty in Hnum. intros E. rewrite E in Hnum.
  simpl in Hnum. lia.
Qed.

End Highlighting.

(** X19 (app.py, highlight_numbers_html).  Highlighting a text is
    writing back, into each span that [extract_number_spans] reports,
    the literal of the span between the two mark tags: both functions
    find the same numbers. *)
Theorem highlight_is_rewrite_with_marked_literals (text : string) :
  let numbers := App.extract_number_spans text in
  AppUi.highlight_numbers_html text
  = App.rewrite_numbers text numbers
      ((λ span, "<mark>" +:+ span.1.1 +:+ "</mark>") <$> numbers).
Proof.
  cbv zeta. unfold AppUi.highlight_numbers_html, AppUi.sub,
    AppUi.highlight_pattern, App.extract_number_spans.
  pose proof (finditer_segmented App.number_pattern text) as Hseg.
  change (λ m, (Re.m_text m, Re.m_start m, Re.m_end m)) with span_of.
  rewrite (rewrite_numbers_substitute text _ _ Hseg)
    by (by rewrite !length_fmap).
  assert (Hsub := sub_go_substitute (Re.Grp App.number_pattern) AppUi.mark text).
  rewrite Hsub; [| |lia].
  - rewrite finditer_go_grp, substitute_with_group.
    destruct (take_drop_0 text) as [_ ->].
    rewrite <- !list_fmap_compose. done.
  - intros cur m. rewrite match_at_grp.
    intros (m' & Hm' & ->)%fmap_Some. simpl.
    by eapply number_match_nonempty.
Qed.

(** ** The column names taken from an expression *)

Section ColumnReferences.
Import Re ReSem.

(** The shape of both patterns of [extract_cols]: a word, and between
    it and a closing character a quoted name, with a space allowed on
    either side of the quotes. *)
Definition reference_pattern (word : string) (close : ascii) : regex :=
  (lit word ⋅ Opt (Chr " ") ⋅ Cls is_quote
     ⋅ Grp (Rep1 (λ c, negb (is_quote c)))
     ⋅ Cls is_quote ⋅ Opt (Chr " ") ⋅ Chr close)%re.

(** The texts a reference pattern matches, for a given name. *)
Definition reference (word : string) (close : ascii) (name : string)
    (written : string) : Prop :=
  ∃ sp1 q1 q2 sp2,
    sp1 ∈ [""; " "] ∧ is_quote q1 = true
    ∧ is_quote q2 = true ∧ sp2 ∈ [""; " "]
    ∧ written
      = word +:+ sp1 +:+ String q1 name +:+ String q2 sp2
          +:+ String close "".

Lemma lit_spans w :
  ∀ c c', matches (lit w) c c' → spans c w c' ∧ group1 c' = group1 c.
Proof.
  induction w as [|ch w IH]; intros c c'; simpl.
  - inversion 1; subst. split; [apply spans_nil | done].
  - intros (c1 & [Hs1 Hg1]%chr_spans & [Hs2 Hg2]%IH)%cat_split. split.
    + apply (spans_app _ (String ch "") _ w _ Hs1 Hs2).
    + congruence.
Qed.

Lemma opt_space_spans c c' :
  matches (Opt (Chr " ")) c c' →
  ∃ sp, sp ∈ [""; " "] ∧ spans c sp c' ∧ group1 c' = group1 c.
Proof.
  intros [[Hs Hg]%chr_spans | ->]%opt_cases.
  - exists " ". split; [|done]. apply list_elem_of_further, list_elem_of_here.
  - exists "". split; [apply list_elem_of_here|]. split; [apply spans_nil|done].
Qed.

Lemma grp_rep1_spans p c c' :
  matches (Grp (Rep1 p)) c c' →
  ∃ ch w,
    p ch = true ∧ all p w = true
    ∧ spans c (String ch w) c'
    ∧ group1 c' = Some (String ch w).
Proof.
  inversion 1 as [| | | | | | | |r c0 c1 Hrep]; subst.
  apply rep1_spans in Hrep as (ch & w & Hch & Hw & Hs & _).
  exists ch, w. split; [done|]. split; [done|]. split.
  - by apply spans_same_place.
  - simpl. by rewrite (spans_take _ _ _ Hs).
Qed.

Lemma reference_pattern_shape word close c c' :
  matches (reference_pattern word close) c c' →
  ∃ name written,
    name ≠ "" ∧ all (λ ch, negb (is_quote ch)) name = true
    ∧ reference word close name written
    ∧ spans c written c'
    ∧ group1 c' = Some name.
Proof.
  unfold reference_pattern.
  intros (c1 & [Hs1 _]%lit_spans & H)%cat_split.
  apply cat_split in H as (c2 & (sp1 & Hsp1 & Hs2 & _)%opt_space_spans & H).
  apply cat_split in H as (c3 & (q1 & Hq1 & Hs3 & _)%cls_spans & H).
  apply cat_split
    in H as (c4 & (ch & w & Hch & Hw & Hs4 & Hg4)%grp_rep1_spans & H).
  apply cat_split in H as (c5 & (q2 & Hq2 & Hs5 & Hg5)%cls_spans & H).
  apply cat_split
    in H as (c6 & (sp2 & Hsp2 & Hs6 & Hg6)%opt_space_spans & [Hs7 Hg7]%chr_spans).
  exists (String ch w), (word +:+ sp1 +:+ String q1 (String ch w)
                           +:+ String q2 sp2 +:+ String close "").
  split; [done|]. split; [simpl; by rewrite Hch|]. split.
  { by exists sp1, q1, q2, sp2. }
  split; [|congruence].
  pose proof (spans_app _ _ _ _ _ Hs6 Hs7) as H67.
  pose proof (spans_app _ _ _ _ _ Hs5 H67) as H57.
  pose proof (spans_app _ _ _ _ _ Hs4 H57) as H47.
  pose proof (spans_app _ _ _ _ _ Hs3 H47) as H37.
  pose proof (spans_app _ _ _ _ _ Hs2 H37) as H27.
  pose proof (spans_app _ _ _ _ _ Hs1 H27) as H17.
  rewrite !str_app_cons, !str_app_nil_l in H17.
  by rewrite !str_app_cons.
Qed.

(** What one [re.findall] of [extract_cols] returns. *)
Lemma findall_reference word close expr name :
  name ∈ findall (reference_pattern word close) expr →
  name ≠ "" ∧ all (λ ch, negb (is_quote ch)) name = true
  ∧ ∃ written, reference word close name written ∧ Str.contains written expr.
Proof.
  unfold findall. intros (m & -> & Hm)%list_elem_of_fmap.
  pose proof (finditer_found (reference_pattern word close) expr) as Hall.
  rewrite Forall_forall in Hall.
  destruct (Hall m Hm) as (pre & post & c' & E & _ & _ & Hmatch & Hsp & _ & Hg).
  apply reference_pattern_shape in Hmatch
    as (name & written & Hne & Hnq & Href & Hw & Hname).
  assert (written = m_text m) as ->.
  { by rewrite <- (spans_take _ _ _ Hw), (spans_take _ _ _ Hsp). }
  rewrite Hg, Hname. simpl. split; [done|]. split; [done|].
  exists (m_text m). split; [done|]. by exists pre, post.
Qed.

End ColumnReferences.

(** X20 (app.py, extract_cols).  Every name that [extract_cols] returns
    is not empty, holds no quote character, and is written in the
    expression between two quote characters inside [pl.col(...)] or
    [df[...]], with at most one space on either side of the quotes. *)
Theorem extract_cols_names_are_written_in_the_expression
    `{SetOrder} (expr name : string) :
  name ∈ App.extract_cols expr →
  name ≠ ""
  ∧ ReSem.all (λ ch, negb (Re.is_quote ch)) name = true
  ∧ ∃ written,
      Str.contains written expr
      ∧ (reference "pl.col(" ")" name written
         ∨ reference "df[" "]" name written).
Proof.
  unfold App.extract_cols. rewrite list_of_set_elem, elem_of_app.
  intros [Hin | Hin];
    apply findall_reference in Hin as (Hne & Hnq & written & Href & Hc);
    (split; [done|]); (split; [done|]); exists written; (split; [done|]).
  - by left.
  - by right.
Qed.

Lemma extract_cols_names_are_written_in_the_expression_witness :
  let expr := "df.filter(pl.col('price') < 500000)" in
  "price" ∈ @App.extract_cols Fixture.dedup_order expr
  ∧ "price" ≠ ""
  ∧ ReSem.all (λ ch, negb (Re.is_quote ch)) "price" = true
  ∧ ∃ written,
      Str.contains written expr
      ∧ (reference "pl.col(" ")" "price" written
         ∨ reference "df[" "]" "price" written).
Proof.
  assert (Hin : "price" ∈ @App.extract_cols Fixture.dedup_order
                  "df.filter(pl.col('price') < 500000)").
  { vm_compute. apply list_elem_of_here. }
  split; [exact Hin|].
  exact (@extract_cols_names_are_written_in_the_expression
           Fixture.dedup_order
           "df.filter(pl.col('price') < 500000)" "price" Hin).
Defined.

(** ** Runs of [query_boats] that execute nothing *)

Section QuietRuns.
Context `{Generator} `{Interpreter} `{SetOrder}.
Variables (df : DataFrame) (query df_head_str model : string).

Import Trace.

Lemma get_polars_expression_raises error w e :
  generate_content (length (calls w)) model
    (App.build_prompt query df_head_str error) = Raise e →
  App.get_polars_expression query df_head_str model error w
  = (mkWorld (calls w ++ [(model, App.build_prompt query df_head_str error)])
             (shown w ++ [UiError ("Error generating expression: " +:+ e)]),
     Some "").
Proof.
  intros Hreply.
  unfold App.get_polars_expression, request, bind. simpl.
  by rewrite Hreply.
Qed.

(** After [j] failed executions, a request that raises ends the loop. *)
Lemma attempts_generation_raises e j :
  ∀ n error expr w,
    j < n →
    (∀ k prompt, k < j →
       expression_of (length (calls w) + k) model prompt ≠ ""
       ∧ ∃ msg,
           App.try_expression df
             (expression_of (length (calls w) + k) model prompt)
           = Some (Raise msg)) →
    (∀ prompt,
       generate_content (length (calls w) + j) model prompt = Raise e) →
    let r := App.attempts n df query df_head_str model error expr w in
    r.2 = Some ("", Polars.empty, [])
    ∧ shown r.1
      = shown w ++ [UiError ("Error generating expression: " +:+ e)]
    ∧ length (calls r.1) = length (calls w) + S j.
Proof.
  induction j as [|j IH]; intros n error expr w Hn Hfail Hraise;
    (destruct n as [|n]; [lia|]); cbv zeta; cbn [App.attempts]; unfold bind.
  - rewrite (get_polars_expression_raises error w e)
      by (rewrite <- (Hraise (App.build_prompt query df_head_str error));
          f_equal; lia).
    simpl. rewrite length_app. simpl. split; [done|]. split; [done | lia].
  - set (prompt := App.build_prompt query df_head_str error).
    destruct (Hfail 0 prompt ltac:(lia)) as [Hne [msg Hmsg]].
    rewrite Nat.add_0_r in Hne, Hmsg.
    destruct (expression_of_nonempty _ _ _ Hne) as (text & Hreply & Hexpr).
    rewrite (get_polars_expression_quiet query df_head_str model error w text
               Hreply).
    rewrite <- Hexpr.
    destruct (String.eqb_spec (expression_of (length (calls w)) model prompt) "")
      as [?|_]; [done|].
    rewrite Hmsg.
    set (e0 := expression_of (length (calls w)) model prompt) in *.
    destruct (IH n (Some msg) e0
                (mkWorld (calls w ++ [(model, prompt)]) (shown w)))
      as (Hout & Hshown & Hcalls).
    + lia.
    + intros k p Hk. simpl. rewrite length_app. simpl.
      replace (length (calls w) + 1 + k) with (length (calls w) + S k) by lia.
      apply Hfail. lia.
    + intros p. simpl. rewrite length_app. simpl.
      replace (length (calls w) + 1 + j) with (length (calls w) + S j) by lia.
      apply Hraise.
    + split; [exact Hout|]. split; [exact Hshown|].
      etransitivity; [exact Hcalls|]. simpl. rewrite length_app. simpl. lia.
Qed.

End QuietRuns.

(** X21 (app.py, query_boats).  With a negative [max_retries] and a
    table that has rows, [query_boats] sends no request; it shows an
    empty generated query and the error text of [None], and returns the
    empty expression with no rows and no columns. *)
Theorem no_attempt_still_reports_an_error
    `{Generator} `{Interpreter} `{SetOrder}
    (df : DataFrame) (query model : string) (max_retries : Z) (w : World) :
  (max_retries < 0)%Z →
  Polars.is_empty df = false →
  App.query_boats df query model max_retries w
  = (mkWorld (calls w)
       (shown w ++ [UiCode "🔍 Generated Query" "";
                    UiError "Error executing query: None"]),
     Some ("", Polars.empty, [])).
Proof.
  intros Hmax Hrows. unfold App.query_boats. rewrite Hrows.
  replace (Z.to_nat (max_retries + 1)) with 0 by lia.
  cbn [App.attempts]. unfold bind, show, ret. simpl.
  by rewrite <- (assoc_L (++)).
Qed.

Lemma no_attempt_still_reports_an_error_witness :
  (-1 < 0)%Z
  ∧ @App.query_boats (Fixture.always (Ok "df"))
      Fixture.name_interpreter Fixture.dedup_order
      (Fixture.boats 3) "fast boats" "gemini-2.5-flash" (-1) no_effects
    = (mkWorld []
         [UiCode "🔍 Generated Query" "";
          UiError "Error executing query: None"],
       Some ("", Polars.empty, [])).
Proof.
  split; [lia|].
  apply (@no_attempt_still_reports_an_error (Fixture.always (Ok "df"))
           Fixture.name_interpreter Fixture.dedup_order
           (Fixture.boats 3) "fast boats" "gemini-2.5-flash" (-1) no_effects);
    [lia | reflexivity].
Defined.

(** X22 (app.py, get_polars_expression and query_boats).  When the
    first [j] attempts fail in execution and the request of the next
    attempt raises, [query_boats] shows the message of that exception
    and nothing else, sends no further request, and returns the empty
    expression with no rows and no columns. *)
Theorem generation_failure_is_shown `{Generator} `{Interpreter} `{SetOrder}
    (df : DataFrame) (query model : string) (max_retries : Z) (w : World)
    (j : nat) (e : string) :
  (Z.of_nat j ≤ max_retries)%Z →
  Polars.is_empty df = false →
  (∀ k prompt, k < j →
     Trace.expression_of (length (calls w) + k) model prompt ≠ ""
     ∧ ∃ msg,
         App.try_expression df
           (Trace.expression_of (length (calls w) + k) model prompt)
         = Some (Raise msg)) →
  (∀ prompt,
     generate_content (length (calls w) + j) model prompt = Raise e) →
  let r := App.query_boats df query model max_retries w in
  r.2 = Some ("", Polars.empty, [])
  ∧ shown r.1 = shown w ++ [UiError ("Error generating expression: " +:+ e)]
  ∧ length (calls r.1) = length (calls w) + S j.
Proof.
  intros Hmax Hrows Hfail Hraise. cbv zeta. unfold App.query_boats.
  rewrite Hrows.
  apply (attempts_generation_raises df query
           (to_pandas_string (Polars.head 5 df)) model e j
           (Z.to_nat (max_retries + 1)) None "" w); [lia | done | done].
Qed.

Lemma generation_failure_is_shown_witness :
  let r := @App.query_boats
             (Fixture.scripted [Ok "speed"; Raise "503 unavailable"; Ok "df"])
             Fixture.name_interpreter Fixture.dedup_order
             (Fixture.boats 3) "fast boats" "gemini-2.5-flash" 2
             no_effects in
  (Z.of_nat 1 ≤ 2)%Z
  ∧ r.2 = Some ("", Polars.empty, [])
  ∧ shown r.1 = [UiError "Error generating expression: 503 unavailable"]
  ∧ length (calls r.1) = 2.
Proof.
  cbv zeta. split; [lia|].
  apply (@generation_failure_is_shown
           (Fixture.scripted [Ok "speed"; Raise "503 unavailable"; Ok "df"])
           Fixture.name_interpreter Fixture.dedup_order
           (Fixture.boats 3) "fast boats" "gemini-2.5-flash" 2
           no_effects 1 "503 unavailable").
  - lia.
  - reflexivity.
  - intros k prompt Hk. replace k with 0 by lia.
    split; [discriminate|]. eexists. vm_compute. reflexivity.
  - intros prompt. reflexivity.
Defined.
